(** * hyperdht (red25519 fork): buffers, signables, the mutable record
      store and the test network

    A shallow embedding of [lib/crypto.js] and of the interoperability test
    file (the one that defines [createStandardTestnet] and [class Testnet]),
    with the properties the design document states about them.

    Definitions:
    - a state-and-exception monad [M], used for every effectful function;
    - [Mem]: Buffers as views on array stores; [hash], [unslabbedHash] and
      the construction of the 64-byte signable in the direct tests;
    - [Store]: the per-node table of mutable records and the replication
      put, as the design document describes them;
    - [Net]: [createStandardTestnet] and [Testnet.destroy] over a world
      that records every network action in a trace;
    - [Sample]: concrete inputs;
    - [Direct]: the two direct tests of the signature backends;
    - [Plan]: the actions of a creation and of a teardown, for runs in
      worlds where actions fail;
    - [Sample2]: more concrete inputs.

    Properties: [MemFacts], [StoreFacts] and [NetFacts], then [DirectFacts]
    and [PlanFacts]. *)

From Stdlib Require Import ZArith.
From Stdlib.Strings Require Import Byte.
From stdpp Require Import gmap strings list.
From Equations Require Import Equations.

Local Open Scope Z_scope.
Local Open Scope nat_scope.

(** ** A state-and-exception monad

    JavaScript code reads and writes shared objects and may throw (an
    [async] function that throws returns a rejected promise, and [await] on
    a rejected promise throws).  A computation takes the current state and
    returns either a value or the thrown error, together with the state at
    that point. *)

Section Eff.
Context {S E : Type}.

Inductive outcome (A : Type) : Type :=
| Ok (a : A)
| Throw (e : E).

Record M (A : Type) : Type := Run { run : S → outcome A * S }.
End Eff.

Arguments outcome : clear implicits.
Arguments M : clear implicits.
Arguments Ok {E A} a.
Arguments Throw {E A} e.
Arguments Run {S E A} _.
Arguments run {S E A} _ _.

Global Instance M_ret {S E} : MRet (M S E) :=
  λ A a, Run (λ s, (Ok a, s)).

Global Instance M_bind {S E} : MBind (M S E) :=
  λ A B f m, Run (λ s, match run m s with
                       | (Ok a, s') => run (f a) s'
                       | (Throw e, s') => (Throw e, s')
                       end).

Definition throw {S E A} (e : E) : M S E A := Run (λ s, (Throw e, s)).
Definition gets {S E A} (f : S → A) : M S E A := Run (λ s, (Ok (f s), s)).
Definition modify {S E} (f : S → S) : M S E unit := Run (λ s, (Ok tt, f s)).

(** ** Buffers and the hash functions of [lib/crypto.js] *)

Module Mem.

(** What the buffer primitives and the encoder can throw. *)
Inductive Error : Type :=
| RangeError      (* a write that does not fit the target view *)
| DetachedStore   (* a view whose store is not in the heap *)
| BadDigestLength (* crypto_generichash: output outside 16..64 bytes *)
| EncodingError   (* c.encode: an unsigned integer that is not a safe integer *)
| BadSeedLength   (* a key pair from a seed that has not 32 bytes *).

(** A Buffer is a view: a window of [byteLength] bytes starting at
    [byteOffset] in a store.  Two views on one store share its bytes, which
    is how [signable.subarray(32)] lets a write to [hash] appear in
    [signable].  [pooled] records how the store was obtained:
    [b4a.allocUnsafe] hands out memory of the allocator's shared slab for
    small sizes, [b4a.allocUnsafeSlow] never does ("unslabbed").  The
    slices that the allocator hands out do not overlap one another, so the
    model gives every allocation a store of its own and keeps the slab only
    as this flag.  A view that a program makes over the slab's underlying
    ArrayBuffer itself would overlap later slices; such views are outside
    the model, and nothing is claimed about them. *)
Record Buffer : Type := {
  store : nat;
  byteOffset : nat;
  byteLength : nat;
  pooled : bool
}.

(** The heap: the stores, the next free store, and the bytes that
    uninitialised memory happens to hold ([junk s i] is byte [i] of a
    store freshly allocated as [s]; nothing is assumed about it). *)
Record Heap : Type := {
  cells : gmap nat (list byte);
  next : nat;
  junk : nat → nat → byte
}.

Definition uninitialised (h : Heap) (n : nat) : list byte :=
  map (junk h (next h)) (seq 0 n).

Definition alloc (slab : bool) (n : nat) : M Heap Error Buffer :=
  Run (λ h,
    (Ok {| store := next h; byteOffset := 0; byteLength := n; pooled := slab |},
     {| cells := <[next h := uninitialised h n]> (cells h);
        next := S (next h);
        junk := junk h |})).

(** [Buffer.poolSize]; requests of at least one byte and below half of it
    ([poolSize >>> 1]) are served from the slab. *)
Definition poolSize : Z := 8192.

(** [b4a.allocUnsafe(n)]: [n] bytes, not zeroed. *)
Definition allocUnsafe (n : nat) : M Heap Error Buffer :=
  alloc (bool_decide (0 < Z.of_nat n < Z.shiftr poolSize 1)%Z) n.

(** [b4a.allocUnsafeSlow(n)]: [n] bytes, not zeroed, never from the slab. *)
Definition allocUnsafeSlow (n : nat) : M Heap Error Buffer :=
  alloc false n.

(** The bytes a view shows. *)
Definition bytes (h : Heap) (b : Buffer) : option (list byte) :=
  bs ← cells h !! store b;
  if decide (byteOffset b + byteLength b ≤ length bs)
  then Some (take (byteLength b) (drop (byteOffset b) bs))
  else None.

(** [bs] with the bytes from index [i] on replaced by [src]. *)
Definition splice (bs : list byte) (i : nat) (src : list byte) : list byte :=
  take i bs ++ src ++ drop (i + length src) bs.

(** Copy [src] into the view at [offset]; a copy that does not fit throws
    and writes nothing. *)
Definition write (b : Buffer) (offset : nat) (src : list byte) : M Heap Error unit :=
  Run (λ h,
    match cells h !! store b with
    | None => (Throw DetachedStore, h)
    | Some bs =>
        if decide (offset + length src ≤ byteLength b
                   ∧ byteOffset b + byteLength b ≤ length bs)
        then (Ok tt,
              {| cells := <[store b := splice bs (byteOffset b + offset) src]> (cells h);
                 next := next h;
                 junk := junk h |})
        else (Throw RangeError, h)
    end).

(** [target.set(source, offset)]. *)
Definition set (target : Buffer) (source : list byte) (offset : nat) : M Heap Error unit :=
  write target offset source.

(** [b.subarray(begin)]: a view on the same store, from [begin] (clamped
    to the length) to the end. *)
Definition subarray (b : Buffer) (begin : nat) : Buffer :=
  {| store := store b;
     byteOffset := byteOffset b + begin `min` byteLength b;
     byteLength := byteLength b - begin `min` byteLength b;
     pooled := pooled b |}.

(** [Number.MAX_SAFE_INTEGER], 2^53 - 1. *)
Definition MAX_SAFE_INTEGER : N := 2 ^ 53 - 1.

Section Hash.
(** The generic hash of sodium (BLAKE2b): [generichash n data] is the
    [n]-byte digest of [data].  It lives in [sodium-universal]; the
    theorems use one fact about it, the length of what it returns. *)
Variable generichash : nat → list byte → list byte.

(** [sodium.crypto_generichash(out, data)]: fills [out] with the digest
    of [data] of [out]'s length. *)
Definition crypto_generichash (out : Buffer) (data : list byte) : M Heap Error unit :=
  if decide (16 ≤ byteLength out ≤ 64)
  then write out 0 (generichash (byteLength out) data)
  else throw BadDigestLength.

(** [hash(data)] of [lib/crypto.js].  The argument is only read; it is
    passed by its contents. *)
Definition hash (data : list byte) : M Heap Error Buffer :=
  out ← allocUnsafe 32;
  _ ← crypto_generichash out data;
  mret out.

(** [unslabbedHash(data)] of [lib/crypto.js]. *)
Definition unslabbedHash (data : list byte) : M Heap Error Buffer :=
  out ← allocUnsafeSlow 32;
  _ ← crypto_generichash out data;
  mret out.

(** [NS.MUTABLE_PUT] of [lib/constants.js], the namespace of mutable
    puts, and the bytes that [m.mutableSignable] of [lib/messages.js]
    writes for a sequence and a value.  Both are parameters of the
    development. *)
Variable NS_MUTABLE_PUT : list byte.
Variable mutableSignable : N → list byte → list byte.

(** [c.encode(m.mutableSignable, { seq, value })].  The sequence is a
    JavaScript number, and the unsigned-integer encoder of
    [compact-encoding] throws on one that is not a safe integer, that is
    from 2^53 on. *)
Definition encode (seq : N) (value : list byte) : M Heap Error (list byte) :=
  if decide (seq ≤ MAX_SAFE_INTEGER)%N
  then mret (mutableSignable seq value)
  else throw EncodingError.

(** The signable of a mutable put, as the direct tests build it, once
    for the signer ([signable]) and once for the verifier
    ([verifySignable]):
<<
    const signable = b4a.allocUnsafe(32 + 32)
    const hash = signable.subarray(32)
    signable.set(NS.MUTABLE_PUT, 0)
    sodium.crypto_generichash(hash, c.encode(m.mutableSignable, { seq, value }))
>> *)
Definition signable (seq : N) (value : list byte) : M Heap Error Buffer :=
  signable ← allocUnsafe (32 + 32);
  let hash := subarray signable 32 in
  _ ← set signable NS_MUTABLE_PUT 0;
  encoded ← encode seq value;
  _ ← crypto_generichash hash encoded;
  mret signable.

End Hash.

End Mem.

(** ** The mutable record store and the replication put *)

Global Instance byte_eq_dec : EqDecision byte := Byte.byte_eq_dec.

Global Instance byte_countable : Countable byte :=
  inj_countable Byte.to_N Byte.of_N Byte.of_to_N.

(** A peer address, [{ host, port }]. *)
Record Address : Type := {
  host : string;
  port : Z
}.

Global Instance Address_eq_dec : EqDecision Address.
Proof. solve_decision. Defined.

Global Instance Address_countable : Countable Address :=
  inj_countable' (λ a, (host a, port a)) (λ hp, {| host := hp.1; port := hp.2 |})
                 (λ a, match a with Build_Address _ _ => eq_refl end).

Module Store.

(** Modelled from the spec: [KeyPair] of the data model. *)
Record KeyPair : Type := {
  kp_publicKey : list byte;
  kp_secretKey : list byte
}.

(** Modelled from the spec: the capability interface of a signature
    backend, "[generateKeyPair], [sign], [verify] over the same public-key
    byte representation and the same 64-byte signable input".  The
    red25519 backend of [hypercore-crypto] and the ed25519 backend of
    sodium are its two implementations; both are external. *)
Class Scheme : Type := {
  generateKeyPair : option (list byte) → KeyPair;
  sign : list byte → list byte → list byte;
  verify : list byte → list byte → list byte → bool
}.

(** Modelled from the spec: [Record] of the data model. *)
Record Record_ : Type := {
  publicKey : list byte;
  sequence : N;
  value : list byte;
  signature : list byte
}.

(** Modelled from the spec: the error, the options and the result of the
    replication put, "[put(keyPair, value, options{sequence?}) ->
    {signature, sequence, publicKey, respondingPeers}]". *)
Inductive PutError : Type :=
| NetworkUnavailable.

Record PutOptions : Type := {
  opt_sequence : option N
}.

Record PutResult : Type := {
  res_signature : list byte;
  res_seq : N;
  res_publicKey : list byte;
  res_respondingPeers : list Address
}.

Section Protocol.
Variable generichash : nat → list byte → list byte.
Variable NS_MUTABLE_PUT : list byte.
Variable mutableSignable : N → list byte → list byte.

(** Modelled from the spec: the Signable of the data model, as a value:
    [namespaceTag ‖ genericHash(canonicalEncode(sequence, value))]. *)
Definition signable (seq : N) (v : list byte) : list byte :=
  NS_MUTABLE_PUT ++ generichash 32 (mutableSignable seq v).

Context (verifier : Scheme).

(** Modelled from the spec: the invariant of a Record, "[signature] must
    verify against [publicKey] over [signable(sequence, value)]", as the
    check a storing node makes. *)
Definition authentic (record : Record_) : bool :=
  @verify verifier (signable (sequence record) (value record))
          (signature record) (publicKey record).

(** Modelled from the spec: the put of the Mutable Record Store, whose
    code (the node's handler of a mutable put request) is missing.
    "Verify [record.signature] against [record.publicKey] [...].  If
    invalid, reject, no state change.  If valid: compare against the
    currently stored sequence for that public key (absent counts as −∞);
    accept and replace only if [record.sequence > currentSequence]".
    The result is whether the record was accepted, and the table after
    the put. *)
Definition put (record : Record_) (table : gmap (list byte) Record_)
  : bool * gmap (list byte) Record_ :=
  if authentic record
  then match table !! publicKey record with
       | None => (true, <[publicKey record := record]> table)
       | Some current =>
           if decide (sequence current < sequence record)%N
           then (true, <[publicKey record := record]> table)
           else (false, table)
       end
  else (false, table).

(** Modelled from the spec: the get of the Mutable Record Store, "a pure
    read of current state; returns absent if never written". *)
Definition get (pk : list byte) (table : gmap (list byte) Record_)
  : option Record_ :=
  table !! pk.

(** The routing layer's answer to "which peers are closest to this
    target". *)
Variable closestNodes : list byte → list Address.

Context (signer : Scheme).

(** Delivery of a record to one target: a reachable target (one that has
    a table in the network) applies its own [put]; delivery to an
    unreachable one changes nothing. *)
Definition deliver (record : Record_)
    (network : gmap Address (gmap (list byte) Record_)) (target : Address)
  : gmap Address (gmap (list byte) Record_) :=
  alter (λ table, (put record table).2) target network.

(** Modelled from the spec: the put of the Record Replication Protocol
    ([mutablePut] of the node class, whose code is missing).  "Compute
    target key [hash(publicKey)], ask the routing layer for the set of
    nodes closest to that target, build the Record (defaulting
    [sequence] to 0 unless caller supplies a higher explicit value),
    sign it once, and send the identical signed Record to every target
    node [...] the overall operation fails if no target can be
    reached". *)
Definition mutablePut (keyPair : KeyPair) (v : list byte) (opts : PutOptions)
    (network : gmap Address (gmap (list byte) Record_))
  : (PutError + PutResult) * gmap Address (gmap (list byte) Record_) :=
  let target := generichash 32 (kp_publicKey keyPair) in
  let targets := closestNodes target in
  let seq := default 0%N (opt_sequence opts) in
  let s := @sign signer (signable seq v) (kp_secretKey keyPair) in
  let record := {| publicKey := kp_publicKey keyPair; sequence := seq;
                   value := v; signature := s |} in
  match filter (λ p, is_Some (network !! p)) targets with
  | [] => (inl NetworkUnavailable, network)
  | reached =>
      (inr {| res_signature := s; res_seq := seq;
              res_publicKey := kp_publicKey keyPair;
              res_respondingPeers := reached |},
       foldl (deliver record) network targets)
  end.
End Protocol.

End Store.

(** ** The test network: [createStandardTestnet] and [class Testnet] *)

Module Net.

(** The two node classes of the test file: [DHT] of [../index.js], which
    signs with red25519, and [StandardHyperDHT] of [hyperdht-standard]. *)
Inductive NodeClass : Type :=
| DHT
| StandardHyperDHT.

(** The options object a node is constructed with.  [o_bootstrap] is a
    reference to a JavaScript array: the node is handed the array itself,
    not a copy.  The nodes created in the loop are given no [port]. *)
Record NodeOptions : Type := {
  o_ephemeral : bool;
  o_firewalled : bool;
  o_bootstrap : nat;
  o_port : option Z;
  o_host : string
}.

(** A node object: its identity (the rank of its construction in the
    world), its class and what it was constructed with. *)
Record Node : Type := {
  node_id : nat;
  node_class : NodeClass;
  node_options : NodeOptions
}.

(** [class Testnet]: [this.nodes] (in creation order) and [this.bootstrap]
    (a reference to an array of contacts). *)
Record Testnet : Type := {
  nodes : list Node;
  bootstrap : nat
}.

(** The network actions, as they complete. *)
Inductive Event : Type :=
| Constructed (node : Node)          (* new DHT(..) / new StandardHyperDHT(..) *)
| Bootstrapped (id : nat)            (* await node.fullyBootstrapped() *)
| Closed (id : nat) (server : nat)   (* await server.close() *)
| Destroyed (id : nat)               (* await node.destroy() *).

Inductive Error : Type :=
| Failed (e : Event)   (* the action threw, or its promise was rejected *)
| TypeError            (* a property of undefined was used *).

(** The world the test file runs in.
    - [arrays]: the JavaScript arrays of contacts, by reference;
    - [trace]: the network actions completed so far, oldest first;
    - [registered]: the testnets whose [destroy] was handed to the
      teardown function (with [order: Infinity]), oldest first;
    - [bound_port id]: the port the socket of node [id] gets bound to;
    - [listening id]: the servers in [node.listening] of node [id];
    - [fails e]: whether action [e] throws or rejects.
    The last three stand for the network and the node classes, about which
    nothing is assumed. *)
Record World : Type := {
  arrays : gmap nat (list Address);
  next_array : nat;
  next_node : nat;
  trace : list Event;
  registered : list Testnet;
  bound_port : nat → Z;
  listening : nat → list nat;
  fails : Event → bool
}.

Abbreviation Eff := (M World Error).

Definition set_arrays (f : gmap nat (list Address) → gmap nat (list Address))
    (w : World) : World :=
  {| arrays := f (arrays w); next_array := next_array w; next_node := next_node w;
     trace := trace w; registered := registered w; bound_port := bound_port w;
     listening := listening w; fails := fails w |}.

Definition set_next_array (n : nat) (w : World) : World :=
  {| arrays := arrays w; next_array := n; next_node := next_node w;
     trace := trace w; registered := registered w; bound_port := bound_port w;
     listening := listening w; fails := fails w |}.

Definition set_next_node (n : nat) (w : World) : World :=
  {| arrays := arrays w; next_array := next_array w; next_node := n;
     trace := trace w; registered := registered w; bound_port := bound_port w;
     listening := listening w; fails := fails w |}.

Definition set_trace (t : list Event) (w : World) : World :=
  {| arrays := arrays w; next_array := next_array w; next_node := next_node w;
     trace := t; registered := registered w; bound_port := bound_port w;
     listening := listening w; fails := fails w |}.

Definition set_registered (r : list Testnet) (w : World) : World :=
  {| arrays := arrays w; next_array := next_array w; next_node := next_node w;
     trace := trace w; registered := r; bound_port := bound_port w;
     listening := listening w; fails := fails w |}.

(** An array literal or a spread: a new array with the given elements. *)
Definition new_array (xs : list Address) : Eff nat :=
  Run (λ w, (Ok (next_array w),
             set_next_array (S (next_array w))
               (set_arrays (insert (next_array w) xs) w))).

(** [a.length]. *)
Definition array_length (a : nat) : Eff nat :=
  Run (λ w, match arrays w !! a with
            | Some xs => (Ok (length xs), w)
            | None => (Throw TypeError, w)
            end).

(** [a.push(x)]. *)
Definition push (a : nat) (x : Address) : Eff unit :=
  Run (λ w, match arrays w !! a with
            | Some xs => (Ok tt, set_arrays (insert a (xs ++ [x])) w)
            | None => (Throw TypeError, w)
            end).

(** An awaited action: it either fails, and the caller throws, or it
    completes and enters the trace. *)
Definition perform (e : Event) : Eff unit :=
  Run (λ w, if fails w e
            then (Throw (Failed e), w)
            else (Ok tt, set_trace (trace w ++ [e]) w)).

(** [new DHT(options)] and [new StandardHyperDHT(options)]. *)
Definition new_node (cls : NodeClass) (options : NodeOptions) : Eff Node :=
  Run (λ w,
    let node := {| node_id := next_node w; node_class := cls;
                   node_options := options |} in
    if fails w (Constructed node)
    then (Throw (Failed (Constructed node)), w)
    else (Ok node, set_next_node (S (next_node w))
                     (set_trace (trace w ++ [Constructed node]) w))).

(** [await node.fullyBootstrapped()]. *)
Definition fullyBootstrapped (node : Node) : Eff unit :=
  perform (Bootstrapped (node_id node)).

(** [node.address()]: the host the node was told to bind to and the port
    its socket got. *)
Definition address (node : Node) : Eff Address :=
  gets (λ w, {| host := o_host (node_options node);
                port := bound_port w (node_id node) |}).

(** [node.listening]. *)
Definition get_listening (node : Node) : Eff (list nat) :=
  gets (λ w, listening w (node_id node)).

(** [await server.close()] for a server of [node]. *)
Definition close (node : Node) (server : nat) : Eff unit :=
  perform (Closed (node_id node) server).

(** [await node.destroy()]. *)
Definition node_destroy (node : Node) : Eff unit :=
  perform (Destroyed (node_id node)).

(** The second argument of [createStandardTestnet]: a teardown function,
    or an object.  Of the object's properties, [opts_teardown] says whether
    [opts.teardown] is there (a function) and [opts_includeRed25519]
    whether [opts.includeRed25519] is truthy. *)
Record OptsObject : Type := {
  opts_teardown : bool;
  opts_host : option string;
  opts_port : option Z;
  opts_bootstrap : option (list Address);
  opts_includeRed25519 : bool
}.

Inductive Opts : Type :=
| OptsFunction
| OptsObj (o : OptsObject).

(** [{}]. *)
Definition empty_opts : Opts :=
  OptsObj {| opts_teardown := false; opts_host := None; opts_port := None;
             opts_bootstrap := None; opts_includeRed25519 := false |}.

(** [opts.p]: a function has none of the properties read here. *)
Definition prop {A} (p : OptsObject → option A) (opts : Opts) : option A :=
  match opts with
  | OptsFunction => None
  | OptsObj o => p o
  end.

Definition flag (p : OptsObject → bool) (opts : Opts) : bool :=
  match opts with
  | OptsFunction => false
  | OptsObj o => p o
  end.

(** [x || d] on strings and on numbers: the empty string and 0 are falsy. *)
Definition or_string (x : option string) (d : string) : string :=
  match x with
  | Some s => if decide (s = "") then d else s
  | None => d
  end.

Definition or_number (x : option Z) (d : Z) : Z :=
  match x with
  | Some n => if decide (n = 0)%Z then d else n
  | None => d
  end.

(** The three values of [teardown]. *)
Inductive Teardown : Type :=
| TeardownOpts    (* opts itself *)
| TeardownBound   (* opts.teardown.bind(opts) *)
| noop.

(** [teardown(() => testnet.destroy(), { order: Infinity })]: the test
    framework's teardown keeps the callback; [noop] does nothing. *)
Definition call_teardown (teardown : Teardown) (testnet : Testnet) : Eff unit :=
  match teardown with
  | noop => mret tt
  | _ => modify (λ w, set_registered (registered w ++ [testnet]) w)
  end.

(** [new Testnet(nodes, bootstrap)], with [bootstrap = []] when the second
    argument is left out. *)
Definition new_Testnet (nodes : list Node) (bootstrap : option nat) : Eff Testnet :=
  match bootstrap with
  | Some b => mret {| nodes := nodes; bootstrap := b |}
  | None => b ← new_array []; mret {| nodes := nodes; bootstrap := b |}
  end.

(** The loop of [createStandardTestnet]:
<<
      while (swarm.length < size) {
        const node = new StandardHyperDHT({ ephemeral: false, firewalled: false,
                                            bootstrap, host: bindHost })
        await node.fullyBootstrapped()
        swarm.push(node)
      }
>>
    [swarm] is local to the function until the loop is over, so it is
    passed along as a value; the result is its final contents. *)
Equations? while_swarm (size : Z) (bootstrap : nat) (bindHost : string)
    (swarm : list Node) : Eff (list Node)
  by wf (Z.to_nat (size - Z.of_nat (length swarm))) lt :=
while_swarm size bootstrap bindHost swarm
  with decide (Z.of_nat (length swarm) < size)%Z := {
  | left _ =>
      node ← new_node StandardHyperDHT
               {| o_ephemeral := false; o_firewalled := false;
                  o_bootstrap := bootstrap; o_port := None; o_host := bindHost |};
      _ ← fullyBootstrapped node;
      while_swarm size bootstrap bindHost (swarm ++ [node])
  | right _ => mret swarm }.
Proof. rewrite length_app. simpl. lia. Qed.

(** [createStandardTestnet(size = 10, opts = {})]. *)
Definition createStandardTestnet (size : option Z) (opts : option Opts)
  : Eff Testnet :=
  let size := default 10%Z size in
  let opts := default empty_opts opts in
  let swarm : list Node := [] in
  let teardown :=
    match opts with
    | OptsFunction => TeardownOpts
    | OptsObj o => if opts_teardown o then TeardownBound else noop
    end in
  let host := or_string (prop opts_host opts) "127.0.0.1" in
  let port := or_number (prop opts_port opts) 0 in
  bootstrap ← new_array (default [] (prop opts_bootstrap opts));
  let bindHost := if decide (host = "127.0.0.1") then "127.0.0.1" else "0.0.0.0" in
  let includeRed25519 := flag opts_includeRed25519 opts in
  if decide (size = 0)%Z then new_Testnet swarm None
  else
    first ← new_node (if includeRed25519 then DHT else StandardHyperDHT)
              {| o_ephemeral := false; o_firewalled := false;
                 o_bootstrap := bootstrap; o_port := Some port;
                 o_host := bindHost |};
    _ ← fullyBootstrapped first;
    len ← array_length bootstrap;
    _ ← (if decide (len = 0)
         then '{| port := first_port |} ← address first;
              push bootstrap {| host := host; port := first_port |}
         else mret tt);
    let swarm := swarm ++ [first] in
    swarm ← while_swarm size bootstrap bindHost swarm;
    testnet ← new_Testnet swarm (Some bootstrap);
    _ ← call_teardown teardown testnet;
    mret testnet.

(** [for (const x of xs) body(x)]. *)
Fixpoint for_of {A} (xs : list A) (body : A → Eff unit) : Eff unit :=
  match xs with
  | [] => mret tt
  | x :: rest => _ ← body x; for_of rest body
  end.

(** [for (let i = k - 1; i >= 0; i--) await this.nodes[i].destroy()]. *)
Fixpoint destroy_down (nodes : list Node) (k : nat) : Eff unit :=
  match k with
  | 0 => mret tt
  | S i =>
      match nodes !! i with
      | Some node => _ ← node_destroy node; destroy_down nodes i
      | None => throw TypeError
      end
  end.

(** [Testnet.destroy()]. *)
Definition destroy (this : Testnet) : Eff unit :=
  _ ← for_of (nodes this) (λ node,
        servers ← get_listening node;
        for_of servers (λ server, close node server));
  destroy_down (nodes this) (length (nodes this)).

(** *** Vocabulary of the properties *)

(** A world in which no action fails. *)
Definition calm (w : World) : Prop := ∀ e, fails w e = false.

(** The value of [host] in [createStandardTestnet], the host the caller
    asked for, and the value of [bindHost], the host the nodes are told to
    bind to. *)
Definition requested_host (opts : Opts) : string :=
  or_string (prop opts_host opts) "127.0.0.1".

Definition bind_host (opts : Opts) : string :=
  if decide (requested_host opts = "127.0.0.1") then "127.0.0.1" else "0.0.0.0".

(** The node that [createStandardTestnet] constructs first, and a node that
    its loop constructs, given the array [bootstrap] and the identity the
    world hands out. *)
Definition first_node (opts : Opts) (bootstrap : nat) (id : nat) : Node :=
  {| node_id := id;
     node_class := if flag opts_includeRed25519 opts then DHT else StandardHyperDHT;
     node_options := {| o_ephemeral := false; o_firewalled := false;
                        o_bootstrap := bootstrap;
                        o_port := Some (or_number (prop opts_port opts) 0);
                        o_host := bind_host opts |} |}.

Definition loop_node (bootstrap : nat) (bindHost : string) (id : nat) : Node :=
  {| node_id := id; node_class := StandardHyperDHT;
     node_options := {| o_ephemeral := false; o_firewalled := false;
                        o_bootstrap := bootstrap; o_port := None;
                        o_host := bindHost |} |}.

(** Whether [teardown] is something else than [noop]. *)
Definition registers (opts : Opts) : bool :=
  match opts with
  | OptsFunction => true
  | OptsObj o => opts_teardown o
  end.

(** The actions that bring a node up, those that close its servers (in the
    order of [node.listening]) and the one that destroys it. *)
Definition startup (node : Node) : list Event :=
  [Constructed node; Bootstrapped (node_id node)].

Definition closes (w : World) (node : Node) : list Event :=
  map (Closed (node_id node)) (listening w (node_id node)).

Definition destroyed (node : Node) : Event := Destroyed (node_id node).

End Net.

(** ** Sample inputs

    Concrete values on which the definitions are run: stand-ins for the
    functions of the libraries, and the inputs of the tests. *)

Module Sample.

(** A stand-in for the generic hash with the right output length: the
    input, cut or padded with zero bytes to [n] bytes. *)
Definition generichash (n : nat) (data : list byte) : list byte :=
  take n (data ++ replicate n x00).

Definition NS_MUTABLE_PUT : list byte := replicate 32 x4d.

(** The [k] low bytes of [n], least significant first. *)
Fixpoint little_endian (k : nat) (n : N) : list byte :=
  match k with
  | 0 => []
  | S k' => default x00 (Byte.of_N (n mod 256)) :: little_endian k' (n / 256)
  end.

(** An unsigned integer as [compact-encoding] writes it: one byte up to
    0xfc, else a marker byte 0xfd, 0xfe or 0xff and 2, 4 or 8 bytes. *)
Definition uint (n : N) : list byte :=
  if (n <=? 0xfc)%N then little_endian 1 n
  else if (n <=? 0xffff)%N then xfd :: little_endian 2 n
  else if (n <=? 0xffffffff)%N then xfe :: little_endian 4 n
  else xff :: little_endian 8 n.

(** Modelled from the spec: the canonical encoding of a sequence and a
    value ([m.mutableSignable] of [lib/messages.js]), "unsigned varint
    sequence, then length-prefixed value bytes". *)
Definition mutableSignable (seq : N) (value : list byte) : list byte :=
  uint seq ++ uint (N.of_nat (length value)) ++ value.

(** A stand-in for a signature backend, of no security: the secret key is
    the public key and the signature is the signable followed by the key. *)
Definition scheme : Store.Scheme :=
  {| Store.generateKeyPair := λ seed,
       let key := default (replicate 32 x01) seed in
       {| Store.kp_publicKey := key; Store.kp_secretKey := key |};
     Store.sign := λ signable secretKey, signable ++ secretKey;
     Store.verify := λ signable signature publicKey,
       bool_decide (signature = signable ++ publicKey) |}.

Definition keyPair : Store.KeyPair := @Store.generateKeyPair scheme None.

(** The two puts of the test "put - put - get with sequence". *)
Definition value_one : list byte := String.list_byte_of_string "testing standard".
Definition value_two : list byte := String.list_byte_of_string "testing standard two".

Definition record (seq : N) (value : list byte) : Store.Record_ :=
  {| Store.publicKey := Store.kp_publicKey keyPair;
     Store.sequence := seq;
     Store.value := value;
     Store.signature :=
       @Store.sign scheme
         (Store.signable generichash NS_MUTABLE_PUT mutableSignable seq value)
         (Store.kp_secretKey keyPair) |}.

(** A network of two reachable nodes with empty tables, both closest to
    every target. *)
Definition peer (n : Z) : Address := {| host := "127.0.0.1"; port := n |}.

Definition network : gmap Address (gmap (list byte) Store.Record_) :=
  {[ peer 49737 := ∅; peer 49738 := ∅ ]}.

Definition closestNodes (target : list byte) : list Address :=
  [peer 49737; peer 49738].

(** A heap without stores, whose uninitialised memory holds 0xaa. *)
Definition heap : Mem.Heap :=
  {| Mem.cells := ∅; Mem.next := 0; Mem.junk := λ _ _, xaa |}.

(** A world without arrays, nodes and events, in which nothing fails; node
    [id] gets port [49737 + id] and has the two servers [2 id] and
    [2 id + 1]. *)
Definition world : Net.World :=
  {| Net.arrays := ∅; Net.next_array := 0; Net.next_node := 0;
     Net.trace := []; Net.registered := [];
     Net.bound_port := λ id, (49737 + Z.of_nat id)%Z;
     Net.listening := λ id, [2 * id; 2 * id + 1];
     Net.fails := λ _, false |}.

(** [{ teardown: t.teardown }], as the tests pass it, and the same with a
    host that is not 127.0.0.1. *)
Definition opts : Net.Opts :=
  Net.OptsObj {| Net.opts_teardown := true; Net.opts_host := None;
                 Net.opts_port := None; Net.opts_bootstrap := None;
                 Net.opts_includeRed25519 := false |}.

Definition opts_other_host : Net.Opts :=
  Net.OptsObj {| Net.opts_teardown := true; Net.opts_host := Some "10.0.0.1";
                 Net.opts_port := None; Net.opts_bootstrap := None;
                 Net.opts_includeRed25519 := false |}.

(** The testnet of three nodes that [createStandardTestnet(3, opts)]
    returns in the sample world. *)
Definition testnet : Net.Testnet :=
  {| Net.nodes := [Net.first_node opts 0 0;
                   Net.loop_node 0 "127.0.0.1" 1;
                   Net.loop_node 0 "127.0.0.1" 2];
     Net.bootstrap := 0 |}.

End Sample.

(** ** The direct tests of the signature backends

    The bodies of the tests "red25519 sign - standard verify (direct
    test)" and "standard sign - red25519 verify (direct test)".  The
    signing and verifying functions belong to [hypercore-crypto] (the
    red25519 backend) and to sodium (the standard backend); each backend
    is a [Store.Scheme] on the bytes of the Buffers it is given. *)

Module Direct.
Import Mem.

(** The bytes of [b], as a function of the libraries reads them. *)
Definition read (b : Buffer) : M Heap Error (list byte) :=
  Run (λ h, match bytes h b with
            | Some bs => (Ok bs, h)
            | None => (Throw DetachedStore, h)
            end).

Section Tests.
Variable generichash : nat → list byte → list byte.
Variable NS_MUTABLE_PUT : list byte.
Variable mutableSignable : N → list byte → list byte.
Context (red25519 standard : Store.Scheme).

(** How [crypto.sign] obtains the Buffer it returns (slab or not). *)
Variable sign_slab : bool.

(** [crypto.sign(message, secretKey)] of [hypercore-crypto]: a new Buffer
    that holds the red25519 signature. *)
Definition crypto_sign (message : Buffer) (secretKey : list byte)
  : M Heap Error Buffer :=
  m ← read message;
  let s := @Store.sign red25519 m secretKey in
  signature ← alloc sign_slab (length s);
  _ ← write signature 0 s;
  mret signature.

(** [crypto.verify(message, signature, publicKey)] of [hypercore-crypto]. *)
Definition crypto_verify (message signature : Buffer) (publicKey : list byte)
  : M Heap Error bool :=
  m ← read message;
  s ← read signature;
  mret (@Store.verify red25519 m s publicKey).

(** [sodium.crypto_sign_detached(signature, message, secretKey)]: the
    standard signature, written into [signature]. *)
Definition crypto_sign_detached (signature message : Buffer) (secretKey : list byte)
  : M Heap Error unit :=
  m ← read message;
  write signature 0 (@Store.sign standard m secretKey).

(** [sodium.crypto_sign_verify_detached(signature, message, publicKey)]. *)
Definition crypto_sign_verify_detached (signature message : Buffer)
    (publicKey : list byte) : M Heap Error bool :=
  s ← read signature;
  m ← read message;
  mret (@Store.verify standard m s publicKey).

(** The body of "red25519 sign - standard verify (direct test)", for the
    key pair that [DHT.keyPair()] returned; the result is the outcome of
    its two assertions, [t.is(signature.length, 64)] and
    [t.ok(verifyResult)]. *)
Definition red25519_sign_standard_verify (red25519KeyPair : Store.KeyPair)
    (seq : N) (value : list byte) : M Heap Error (list bool) :=
  signable ← signable generichash NS_MUTABLE_PUT mutableSignable seq value;
  signature ← crypto_sign signable (Store.kp_secretKey red25519KeyPair);
  let is_64 := bool_decide (byteLength signature = 64) in
  verifySignable ← Mem.signable generichash NS_MUTABLE_PUT mutableSignable seq value;
  verifyResult ← crypto_sign_verify_detached signature verifySignable
                   (Store.kp_publicKey red25519KeyPair);
  mret [is_64; verifyResult].

(** The body of "standard sign - red25519 verify (direct test)", for the
    key pair that [StandardHyperDHT.keyPair()] returned. *)
Definition standard_sign_red25519_verify (standardKeyPair : Store.KeyPair)
    (seq : N) (value : list byte) : M Heap Error (list bool) :=
  signable ← signable generichash NS_MUTABLE_PUT mutableSignable seq value;
  signature ← allocUnsafe 64;
  _ ← crypto_sign_detached signature signable (Store.kp_secretKey standardKeyPair);
  let is_64 := bool_decide (byteLength signature = 64) in
  verifySignable ← Mem.signable generichash NS_MUTABLE_PUT mutableSignable seq value;
  verifyResult ← crypto_verify verifySignable signature
                   (Store.kp_publicKey standardKeyPair);
  mret [is_64; verifyResult].

(** The two tests, with the sequence and the value they use. *)
Definition test_red25519_sign_standard_verify (red25519KeyPair : Store.KeyPair)
  : M Heap Error (list bool) :=
  red25519_sign_standard_verify red25519KeyPair 0
    (String.list_byte_of_string "testing red25519 signature").

Definition test_standard_sign_red25519_verify (standardKeyPair : Store.KeyPair)
  : M Heap Error (list bool) :=
  standard_sign_red25519_verify standardKeyPair 0
    (String.list_byte_of_string "testing standard signature").

(** [createKeyPair(seed)] of [lib/crypto.js]: the key pair of
    [hypercore-crypto], that is of the red25519 backend.  Without a seed
    the pair is a new one; a seed of 32 bytes determines the pair; any
    other seed makes the library throw. *)
Definition createKeyPair (seed : option (list byte)) : M Heap Error Store.KeyPair :=
  match seed with
  | None => mret (@Store.generateKeyPair red25519 None)
  | Some bytes =>
      if decide (length bytes = 32)
      then mret (@Store.generateKeyPair red25519 (Some bytes))
      else throw BadSeedLength
  end.
End Tests.

(** Two calls of a hash function of [lib/crypto.js], one after the
    other. *)
Definition twice {A} (f : list byte → M Heap Error A) (first second : list byte)
  : M Heap Error (A * A) :=
  a ← f first;
  b ← f second;
  mret (a, b).

(** A heap whose stores all lie below the next free one. *)
Definition well_formed (h : Heap) : Prop :=
  ∀ s, is_Some (cells h !! s) → s < next h.

End Direct.

(** ** Runs of the test network in any world *)

Module Plan.
Import Net.

Global Instance NodeClass_eq_dec : EqDecision NodeClass.
Proof. solve_decision. Defined.

Global Instance NodeOptions_eq_dec : EqDecision NodeOptions.
Proof. solve_decision. Defined.

Global Instance Node_eq_dec : EqDecision Node.
Proof. solve_decision. Defined.

Global Instance Event_eq_dec : EqDecision Event.
Proof. solve_decision. Defined.

(** The first action of a plan that fails, with the actions before it;
    [None] when no action of the plan fails. *)
Fixpoint first_failure (fails : Event → bool) (plan : list Event)
  : option (list Event * Event) :=
  match plan with
  | [] => None
  | e :: rest =>
      if fails e then Some ([], e)
      else match first_failure fails rest with
           | Some (done, f) => Some (e :: done, f)
           | None => None
           end
  end.

(** The identities of the nodes constructed and of the nodes destroyed in
    a trace, in the order of the trace. *)
Definition constructed_ids (evs : list Event) : list nat :=
  omap (λ e, match e with Constructed node => Some (node_id node) | _ => None end) evs.

Definition destroyed_ids (evs : list Event) : list nat :=
  omap (λ e, match e with Destroyed id => Some id | _ => None end) evs.

(** The world after the actions [evs] of a creation have completed: they
    have entered the trace and every construction has taken an identity. *)
Definition after (w : World) (evs : list Event) : World :=
  set_next_node (next_node w + length (constructed_ids evs))
    (set_trace (trace w ++ evs) w).

(** The actions that [createStandardTestnet(size, opts)] performs in world
    [w] when none fails, and those of [destroy]. *)
Definition creation_plan (size : option Z) (opts : option Opts) (w : World)
  : list Event :=
  let o := default empty_opts opts in
  if decide (default 10%Z size = 0%Z) then []
  else concat (map startup
         (first_node o (next_array w) (next_node w)
          :: map (loop_node (next_array w) (bind_host o))
                 (seq (S (next_node w)) (Z.to_nat (default 10%Z size - 1))))).

Definition destroy_plan (this : Testnet) (w : World) : list Event :=
  concat (map (closes w) (nodes this)) ++ map destroyed (reverse (nodes this)).

(** The creation of a testnet followed by its teardown, the callback
    [() => testnet.destroy()]. *)
Definition create_then_destroy (size : option Z) (opts : option Opts)
  : Eff Testnet :=
  testnet ← createStandardTestnet size opts;
  _ ← destroy testnet;
  mret testnet.

End Plan.

(** ** More sample inputs *)

Module Sample2.

(** The sample world, except that the bootstrap of node 1 fails. *)
Definition world_bootstrap_fails : Net.World :=
  {| Net.arrays := ∅; Net.next_array := 0; Net.next_node := 0;
     Net.trace := []; Net.registered := [];
     Net.bound_port := λ id, (49737 + Z.of_nat id)%Z;
     Net.listening := λ id, [2 * id; 2 * id + 1];
     Net.fails := λ e, bool_decide (e = Net.Bootstrapped 1) |}.

(** The sample world, except that closing server 3 of node 1 fails. *)
Definition world_close_fails : Net.World :=
  {| Net.arrays := ∅; Net.next_array := 0; Net.next_node := 0;
     Net.trace := []; Net.registered := [];
     Net.bound_port := λ id, (49737 + Z.of_nat id)%Z;
     Net.listening := λ id, [2 * id; 2 * id + 1];
     Net.fails := λ e, bool_decide (e = Net.Closed 1 3) |}.

(** Options that ask for a red25519 node first. *)
Definition opts_red25519 : Net.Opts :=
  Net.OptsObj {| Net.opts_teardown := true; Net.opts_host := None;
                 Net.opts_port := None; Net.opts_bootstrap := None;
                 Net.opts_includeRed25519 := true |}.

(** The sample world with one array, which holds one contact. *)
Definition world_with_array : Net.World :=
  {| Net.arrays := {[ 0 := [Sample.peer 49000] ]}; Net.next_array := 1;
     Net.next_node := 0; Net.trace := []; Net.registered := [];
     Net.bound_port := λ id, (49737 + Z.of_nat id)%Z;
     Net.listening := λ id, [2 * id; 2 * id + 1];
     Net.fails := λ _, false |}.

(** A heap with one store of two bytes, and the Buffer on it. *)
Definition heap_one : Mem.Heap :=
  {| Mem.cells := {[ 0 := [x01; x02] ]}; Mem.next := 1; Mem.junk := λ _ _, xaa |}.

Definition buffer_one : Mem.Buffer :=
  {| Mem.store := 0; Mem.byteOffset := 0; Mem.byteLength := 2; Mem.pooled := false |}.

(** A stand-in for a signature backend with signatures of 64 bytes, of no
    security: the secret key is the public key and the signature is the
    first 64 bytes of the key followed by the message. *)
Definition scheme64 : Store.Scheme :=
  {| Store.generateKeyPair := λ seed,
       let key := default (replicate 32 x01) seed in
       {| Store.kp_publicKey := key; Store.kp_secretKey := key |};
     Store.sign := λ message secretKey,
       take 64 (secretKey ++ message ++ replicate 64 x00);
     Store.verify := λ message signature publicKey,
       bool_decide (signature = take 64 (publicKey ++ message ++ replicate 64 x00)) |}.

End Sample2.

(** * Properties *)

(** ** The monad *)

Lemma run_bind {S E A B} (m : M S E A) (f : A → M S E B) (s : S) :
  run (m ≫= f) s =
  match run m s with
  | (Ok a, s') => run (f a) s'
  | (Throw e, s') => (Throw e, s')
  end.
Proof. reflexivity. Qed.

Lemma run_bind_ok {S E A B} (m : M S E A) (f : A → M S E B) s a s' :
  run m s = (Ok a, s') → run (m ≫= f) s = run (f a) s'.
Proof. intros H. rewrite run_bind, H. reflexivity. Qed.

Lemma run_ret {S E A} (a : A) (s : S) : run (mret a : M S E A) s = (Ok a, s).
Proof. reflexivity. Qed.

(** ** Buffers, [hash] and [unslabbedHash], the signable *)

Module MemFacts.
Import Mem.

Lemma uninitialised_length h n : length (uninitialised h n) = n.
Proof. unfold uninitialised. rewrite length_map, length_seq. reflexivity. Qed.

Lemma splice_length bs i src :
  i + length src ≤ length bs → length (splice bs i src) = length bs.
Proof.
  intros H. unfold splice.
  rewrite !length_app, length_take, length_drop. lia.
Qed.

(** Overwriting a whole list leaves the new bytes only. *)
Lemma splice_all bs src : length src = length bs → splice bs 0 src = src.
Proof.
  intros H. unfold splice. simpl.
  rewrite drop_ge by lia. apply app_nil_r.
Qed.

(** A write at the start keeps what lies behind it... *)
Lemma splice_head bs src :
  length src ≤ length bs → splice bs 0 src = src ++ drop (length src) bs.
Proof. reflexivity. Qed.

(** ... and a write that ends where the list ends keeps what lies before. *)
Lemma splice_tail pre old src i :
  i = length pre → length src = length old →
  splice (pre ++ old) i src = pre ++ src.
Proof.
  intros -> H. unfold splice.
  rewrite take_app_length. rewrite drop_ge by (rewrite length_app; lia).
  rewrite app_nil_r. reflexivity.
Qed.

Lemma run_alloc slab n h :
  run (alloc slab n) h =
  (Ok {| store := next h; byteOffset := 0; byteLength := n; pooled := slab |},
   {| cells := <[next h := uninitialised h n]> (cells h);
      next := S (next h); junk := junk h |}).
Proof. reflexivity. Qed.

Lemma run_write b offset src h bs :
  cells h !! store b = Some bs →
  offset + length src ≤ byteLength b →
  byteOffset b + byteLength b ≤ length bs →
  run (write b offset src) h =
  (Ok tt, {| cells := <[store b := splice bs (byteOffset b + offset) src]> (cells h);
             next := next h; junk := junk h |}).
Proof.
  intros Hbs Hfit Hview. unfold write. simpl. rewrite Hbs.
  case_decide; [reflexivity | tauto].
Qed.

(** What a view on a whole store shows. *)
Lemma bytes_whole h b bs :
  cells h !! store b = Some bs → byteOffset b = 0 → byteLength b = length bs →
  bytes h b = Some bs.
Proof.
  intros Hbs Hoff Hlen. unfold bytes. rewrite Hbs. simpl.
  rewrite Hoff, Hlen. case_decide; [| lia].
  rewrite drop_0, take_ge by lia. reflexivity.
Qed.

Section HashFacts.
Variable generichash : nat → list byte → list byte.
Hypothesis generichash_length : ∀ n data, length (generichash n data) = n.

Lemma run_crypto_generichash out data h bs :
  cells h !! store out = Some bs →
  16 ≤ byteLength out ≤ 64 →
  byteOffset out + byteLength out ≤ length bs →
  run (crypto_generichash generichash out data) h =
  (Ok tt, {| cells := <[store out :=
                          splice bs (byteOffset out)
                                 (generichash (byteLength out) data)]> (cells h);
             next := next h; junk := junk h |}).
Proof.
  intros Hbs Hlen Hview. unfold crypto_generichash.
  case_decide; [| tauto].
  erewrite run_write; [| eassumption | rewrite generichash_length; lia | assumption ].
  rewrite Nat.add_0_r. reflexivity.
Qed.

(** Both hash functions are this, up to the allocator. *)
Lemma run_hash_alloc slab data h :
  run (out ← alloc slab 32; _ ← crypto_generichash generichash out data; mret out) h =
  (Ok {| store := next h; byteOffset := 0; byteLength := 32; pooled := slab |},
   {| cells := <[next h := generichash 32 data]> (cells h);
      next := S (next h); junk := junk h |}).
Proof.
  erewrite run_bind_ok by apply run_alloc.
  erewrite run_bind_ok.
  2:{ eapply run_crypto_generichash; simpl.
      - apply lookup_insert_eq.
      - lia.
      - rewrite uninitialised_length. lia. }
  rewrite run_ret. simpl.
  rewrite insert_insert_eq.
  rewrite splice_all by (rewrite generichash_length, uninitialised_length; reflexivity).
  reflexivity.
Qed.

(** C9.  For every input, [hash] and [unslabbedHash] each return a Buffer
    of 32 bytes, and the two Buffers hold the same bytes, the 32-byte
    generic hash of the input, whatever the heaps they run on and the
    uninitialised memory they are given.  They differ in the allocator:
    the Buffer of [hash] comes from the slab, that of [unslabbedHash]
    does not. *)
Theorem hash_unslabbedHash_agree (data : list byte) (h h' : Heap) :
  ∃ out out' h1 h1',
    run (hash generichash data) h = (Ok out, h1) ∧
    run (unslabbedHash generichash data) h' = (Ok out', h1') ∧
    byteLength out = 32 ∧ byteLength out' = 32 ∧
    bytes h1 out = Some (generichash 32 data) ∧
    bytes h1' out' = Some (generichash 32 data) ∧
    length (generichash 32 data) = 32 ∧
    pooled out = true ∧ pooled out' = false.
Proof.
  unfold hash, unslabbedHash, allocUnsafe, allocUnsafeSlow.
  rewrite !run_hash_alloc.
  eexists _, _, _, _. split; [reflexivity|]. split; [reflexivity|].
  simpl. repeat split.
  - apply bytes_whole; simpl; [apply lookup_insert_eq | reflexivity |].
    rewrite generichash_length. reflexivity.
  - apply bytes_whole; simpl; [apply lookup_insert_eq | reflexivity |].
    rewrite generichash_length. reflexivity.
  - apply generichash_length.
Qed.

Variable NS_MUTABLE_PUT : list byte.
Hypothesis NS_MUTABLE_PUT_length : length NS_MUTABLE_PUT = 32.
Variable mutableSignable : N → list byte → list byte.

Lemma run_encode seq value h :
  run (encode mutableSignable seq value) h =
  if decide (seq ≤ MAX_SAFE_INTEGER)%N
  then (Ok (mutableSignable seq value), h)
  else (Throw EncodingError, h).
Proof. unfold encode. case_decide; reflexivity. Qed.

(** One construction of the signable for a sequence that is a safe
    integer: a new Buffer of 64 bytes on a new store that holds the
    namespace and then the digest; nothing of the uninitialised memory is
    left in it. *)
Lemma run_signable seq value h :
  (seq ≤ MAX_SAFE_INTEGER)%N →
  run (signable generichash NS_MUTABLE_PUT mutableSignable seq value) h =
  (Ok {| store := next h; byteOffset := 0; byteLength := 64; pooled := true |},
   {| cells := <[next h := NS_MUTABLE_PUT
                           ++ generichash 32 (mutableSignable seq value)]> (cells h);
      next := S (next h); junk := junk h |}).
Proof.
  intros Hsafe.
  unfold signable, allocUnsafe, set.
  erewrite run_bind_ok by apply run_alloc.
  erewrite run_bind_ok.
  2:{ eapply run_write; simpl.
      - apply lookup_insert_eq.
      - rewrite NS_MUTABLE_PUT_length. lia.
      - rewrite uninitialised_length. lia. }
  erewrite run_bind_ok
    by (rewrite run_encode; rewrite decide_True by exact Hsafe; reflexivity).
  erewrite run_bind_ok.
  2:{ eapply run_crypto_generichash; simpl.
      - apply lookup_insert_eq.
      - lia.
      - rewrite splice_length; rewrite ?uninitialised_length, ?NS_MUTABLE_PUT_length; lia. }
  rewrite run_ret. simpl.
  rewrite !insert_insert_eq.
  replace (splice (uninitialised h 64) 0 NS_MUTABLE_PUT)
    with (NS_MUTABLE_PUT ++ drop 32 (uninitialised h 64))
    by (rewrite splice_head, NS_MUTABLE_PUT_length;
        [reflexivity | rewrite uninitialised_length; lia]).
  rewrite splice_tail.
  - reflexivity.
  - symmetry. assumption.
  - rewrite generichash_length, length_drop, uninitialised_length. reflexivity.
Qed.


End HashFacts.

Lemma sample_generichash_length n data : length (Sample.generichash n data) = n.
Proof.
  unfold Sample.generichash.
  rewrite length_take, length_app, length_replicate. lia.
Qed.

Lemma sample_NS_MUTABLE_PUT_length : length Sample.NS_MUTABLE_PUT = 32.
Proof. reflexivity. Qed.

(** [hash_unslabbedHash_agree] on the sample hash, for the bytes of
    "testing standard" and the sample heap. *)
Lemma hash_unslabbedHash_agree_sample :
  ∃ out out' h1 h1',
    run (hash Sample.generichash Sample.value_one) Sample.heap = (Ok out, h1) ∧
    run (unslabbedHash Sample.generichash Sample.value_one) Sample.heap
      = (Ok out', h1') ∧
    byteLength out = 32 ∧ byteLength out' = 32 ∧
    bytes h1 out = Some (Sample.generichash 32 Sample.value_one) ∧
    bytes h1' out' = Some (Sample.generichash 32 Sample.value_one) ∧
    length (Sample.generichash 32 Sample.value_one) = 32 ∧
    pooled out = true ∧ pooled out' = false.
Proof.
  exact (hash_unslabbedHash_agree Sample.generichash sample_generichash_length
           Sample.value_one Sample.heap Sample.heap).
Defined.


End MemFacts.

(** ** The mutable record store and the replication put *)

Module StoreFacts.
Import Store.

Section ProtocolFacts.
Variable generichash : nat → list byte → list byte.
Variable NS_MUTABLE_PUT : list byte.
Variable mutableSignable : N → list byte → list byte.
Context (verifier : Scheme).

Local Abbreviation authentic :=
  (authentic generichash NS_MUTABLE_PUT mutableSignable verifier).
Local Abbreviation put :=
  (put generichash NS_MUTABLE_PUT mutableSignable verifier).

(** A put that is accepted: the record is authentic and its sequence is
    above the stored one, if there is one. *)
Lemma put_accepted (record : Record_) (table : gmap (list byte) Record_) :
  authentic record = true →
  (∀ cur, table !! publicKey record = Some cur →
          (sequence cur < sequence record)%N) →
  put record table = (true, <[publicKey record := record]> table).
Proof.
  intros Hauth Hlow. unfold Store.put. rewrite Hauth.
  destruct (table !! publicKey record) as [cur|] eqn:Hcur; [|reflexivity].
  rewrite decide_True; [reflexivity | apply Hlow; reflexivity].
Qed.

(** A put that is ignored: the stored sequence is not below the
    record's. *)
Lemma put_stale (record cur : Record_) (table : gmap (list byte) Record_) :
  table !! publicKey record = Some cur →
  (sequence record ≤ sequence cur)%N →
  put record table = (false, table).
Proof.
  intros Hcur Hle. unfold Store.put.
  destruct (authentic record); [|reflexivity].
  rewrite Hcur. rewrite decide_False by lia. reflexivity.
Qed.

(** C3.  Two authentic records [r1] and [r2] for one public key, with the
    sequence of [r1] below that of [r2], are put into a table that holds
    nothing for the key, or a record of a sequence below that of [r2].
    In either order of the two puts the table then holds [r2], and [get]
    returns it; put after [r2], the record [r1] is not accepted and
    leaves the table as it is.  In general a put whose sequence is at
    most the stored sequence is not accepted and changes nothing. *)
Theorem put_keeps_highest_sequence (r1 r2 : Record_)
    (table : gmap (list byte) Record_) :
  publicKey r1 = publicKey r2 →
  (sequence r1 < sequence r2)%N →
  authentic r1 = true →
  authentic r2 = true →
  (∀ cur, table !! publicKey r2 = Some cur → (sequence cur < sequence r2)%N) →
  get (publicKey r2) (put r2 (put r1 table).2).2 = Some r2 ∧
  get (publicKey r2) (put r1 (put r2 table).2).2 = Some r2 ∧
  put r1 (put r2 table).2 = (false, (put r2 table).2) ∧
  (∀ (r cur : Record_) (t : gmap (list byte) Record_),
      t !! publicKey r = Some cur → (sequence r ≤ sequence cur)%N →
      put r t = (false, t)).
Proof.
  intros Hpk Hseq Hauth1 Hauth2 Hlow.
  assert (H21 : put r1 (put r2 table).2 = (false, (put r2 table).2)).
  { rewrite (put_accepted r2 table Hauth2 Hlow). simpl.
    apply put_stale with (cur := r2); [|lia].
    rewrite Hpk. apply lookup_insert_eq. }
  split; [|split; [|split]].
  - unfold get. rewrite put_accepted with (record := r2); [apply lookup_insert_eq | exact Hauth2 |].
    intros cur. unfold Store.put. rewrite Hauth1, Hpk.
    destruct (table !! publicKey r2) as [old|] eqn:Hold; simpl.
    + destruct (decide _); simpl.
      * rewrite lookup_insert_eq. intros [= <-]. exact Hseq.
      * rewrite Hold. intros [= <-]. apply Hlow. reflexivity.
    + rewrite lookup_insert_eq. intros [= <-]. exact Hseq.
  - rewrite H21. simpl. unfold get.
    rewrite (put_accepted r2 table Hauth2 Hlow). apply lookup_insert_eq.
  - exact H21.
  - intros r cur t. apply put_stale.
Qed.

Variable closestNodes : list byte → list Address.
Context (signer : Scheme).

Local Abbreviation mutablePut :=
  (mutablePut generichash NS_MUTABLE_PUT mutableSignable verifier closestNodes signer).
Local Abbreviation signable := (signable generichash NS_MUTABLE_PUT mutableSignable).

Local Abbreviation deliver :=
  (deliver generichash NS_MUTABLE_PUT mutableSignable verifier).

(** A second put of the same record changes nothing. *)
Lemma put_twice (record : Record_) (table : gmap (list byte) Record_) :
  (put record (put record table).2).2 = (put record table).2.
Proof.
  unfold Store.put. destruct (authentic record); [|reflexivity].
  destruct (table !! publicKey record) as [cur|] eqn:Hcur.
  - destruct (decide (sequence cur < sequence record)%N) as [Hlt|Hge]; cbn [snd].
    + rewrite lookup_insert_eq. rewrite decide_False by lia. reflexivity.
    + rewrite Hcur. rewrite decide_False by exact Hge. reflexivity.
  - cbn [snd]. rewrite lookup_insert_eq. rewrite decide_False by lia. reflexivity.
Qed.

(** What a node holds after the record was sent to a list of targets: a
    target has put the record into its table, any other node has its table
    as before. *)
Lemma lookup_foldl_deliver (record : Record_) (targets : list Address) :
  ∀ (network : gmap Address (gmap (list byte) Record_)) (p : Address),
    foldl (deliver record) network targets !! p =
    if decide (p ∈ targets)
    then (λ table, (put record table).2) <$> network !! p
    else network !! p.
Proof.
  induction targets as [|q targets IH]; intros network p; cbn [foldl].
  - rewrite decide_False by (intros H; inversion H). reflexivity.
  - rewrite IH. unfold Store.deliver.
    destruct (decide (p = q)) as [->|Hne].
    + rewrite lookup_alter_eq. rewrite (decide_True (P := q ∈ q :: targets))
        by apply list_elem_of_here.
      destruct (decide (q ∈ targets)); [|reflexivity].
      destruct (network !! q) as [table|]; [|reflexivity].
      cbn. rewrite put_twice. reflexivity.
    + rewrite lookup_alter_ne by congruence.
      destruct (decide (p ∈ targets)) as [Hin|Hout].
      * rewrite decide_True by (apply list_elem_of_further, Hin). reflexivity.
      * rewrite decide_False; [reflexivity|].
        intros Hin. apply elem_of_cons in Hin as [?|?]; congruence.
Qed.

(** C4.  A mutable put that reaches at least one of the nodes closest to
    the target returns a result.  The record it builds has the public key
    of the pair, the value, the sequence of the options or 0 when there is
    none, and the signature of the signable of that sequence and the
    value; the result reports the sequence and the signature of this
    record and the targets that were reached.  This record is what is
    sent: every reachable target has put exactly it into its table (and
    holds it afterwards, when the record verifies and the table held
    nothing for the key or a lower sequence), and the nodes that are no
    targets are left as they were.  So without a sequence in the options
    the record is built and signed with sequence 0 and the result reports
    0, and with a sequence in the options the result reports exactly that
    sequence. *)
Theorem mutablePut_sequence (keyPair : KeyPair) (v : list byte) (opts : PutOptions)
    (network : gmap Address (gmap (list byte) Record_)) (target : Address) :
  target ∈ closestNodes (generichash 32 (kp_publicKey keyPair)) →
  is_Some (network !! target) →
  let targets := closestNodes (generichash 32 (kp_publicKey keyPair)) in
  let seq := match opt_sequence opts with Some s => s | None => 0%N end in
  let record :=
    {| publicKey := kp_publicKey keyPair;
       sequence := seq;
       value := v;
       signature := @sign signer (signable seq v) (kp_secretKey keyPair) |} in
  ∃ res network',
    mutablePut keyPair v opts network = (inr res, network') ∧
    res_publicKey res = kp_publicKey keyPair ∧
    res_seq res = seq ∧
    res_signature res = signature record ∧
    res_respondingPeers res = filter (λ p, is_Some (network !! p)) targets ∧
    (opt_sequence opts = None →
       res_seq res = 0%N ∧
       res_signature res = @sign signer (signable 0%N v) (kp_secretKey keyPair) ∧
       sequence record = 0%N) ∧
    (∀ s, opt_sequence opts = Some s →
       res_seq res = s ∧
       res_signature res = @sign signer (signable s v) (kp_secretKey keyPair) ∧
       sequence record = s) ∧
    (∀ p table, p ∈ targets → network !! p = Some table →
       network' !! p = Some (put record table).2) ∧
    (∀ p table, p ∈ targets → network !! p = Some table →
       authentic record = true →
       (∀ cur, table !! kp_publicKey keyPair = Some cur →
               (sequence cur < seq)%N) →
       ∃ table', network' !! p = Some table' ∧
                 get (kp_publicKey keyPair) table' = Some record) ∧
    (∀ p, p ∉ targets → network' !! p = network !! p).
Proof.
  intros Hin Hreach targets seq record. unfold Store.mutablePut.
  fold targets.
  replace (default 0%N (opt_sequence opts)) with seq
    by (unfold seq; destruct (opt_sequence opts); reflexivity).
  fold record.
  destruct (filter _ targets) as [|p0 reached] eqn:Hfilter.
  - exfalso.
    assert (Hx : target ∈ filter (λ p, is_Some (network !! p)) targets)
      by (apply list_elem_of_filter; split; assumption).
    rewrite Hfilter in Hx. inversion Hx.
  - eexists _, _. split; [reflexivity|]. cbn [res_publicKey res_seq res_signature
                                               res_respondingPeers].
    split; [reflexivity|]. split; [reflexivity|]. split; [reflexivity|].
    split; [reflexivity|].
    assert (Hsent : ∀ p table, p ∈ targets → network !! p = Some table →
              foldl (deliver record) network targets !! p
              = Some (put record table).2).
    { intros p table Hp Htable. rewrite lookup_foldl_deliver.
      rewrite decide_True by exact Hp. rewrite Htable. reflexivity. }
    split; [|split; [|split; [|split]]].
    + intros Hnone. unfold seq, record, seq. rewrite Hnone.
      repeat split.
    + intros s Hs. unfold seq, record, seq. rewrite Hs. repeat split.
    + exact Hsent.
    + intros p table Hp Htable Hauth Hlow.
      exists (<[kp_publicKey keyPair := record]> table). split.
      * rewrite (Hsent p table Hp Htable).
        rewrite (put_accepted record table Hauth Hlow). reflexivity.
      * unfold get. apply lookup_insert_eq.
    + intros p Hp. rewrite lookup_foldl_deliver.
      rewrite decide_False by exact Hp. reflexivity.
Qed.
End ProtocolFacts.

Lemma sample_records_authentic :
  authentic Sample.generichash Sample.NS_MUTABLE_PUT Sample.mutableSignable
    Sample.scheme (Sample.record 0 Sample.value_one) = true ∧
  authentic Sample.generichash Sample.NS_MUTABLE_PUT Sample.mutableSignable
    Sample.scheme (Sample.record 2 Sample.value_two) = true.
Proof. split; vm_compute; reflexivity. Qed.

(** [put_keeps_highest_sequence] on the two puts of the test "put - put -
    get with sequence": sequence 0 with "testing standard" and sequence 2
    with "testing standard two", into an empty table. *)
Lemma put_keeps_highest_sequence_sample :
  let put := put Sample.generichash Sample.NS_MUTABLE_PUT Sample.mutableSignable
               Sample.scheme in
  let r1 := Sample.record 0 Sample.value_one in
  let r2 := Sample.record 2 Sample.value_two in
  get (publicKey r2) (put r2 (put r1 ∅).2).2 = Some r2 ∧
  get (publicKey r2) (put r1 (put r2 ∅).2).2 = Some r2 ∧
  put r1 (put r2 ∅).2 = (false, (put r2 ∅).2) ∧
  (∀ (r cur : Record_) (t : gmap (list byte) Record_),
      t !! publicKey r = Some cur → (sequence r ≤ sequence cur)%N →
      put r t = (false, t)).
Proof.
  apply (put_keeps_highest_sequence Sample.generichash Sample.NS_MUTABLE_PUT
           Sample.mutableSignable Sample.scheme
           (Sample.record 0 Sample.value_one) (Sample.record 2 Sample.value_two) ∅).
  - reflexivity.
  - reflexivity.
  - apply sample_records_authentic.
  - apply sample_records_authentic.
  - intros cur H. rewrite lookup_empty in H. discriminate H.
Defined.

(** [mutablePut_sequence] on the two puts of the test "put - put - get
    with sequence", on the sample network: the first without a sequence in
    the options, the second with sequence 2.  In both the first target
    ends up holding the record of that sequence. *)
Lemma mutablePut_sequence_sample :
  let mutablePut :=
    mutablePut Sample.generichash Sample.NS_MUTABLE_PUT Sample.mutableSignable
      Sample.scheme Sample.closestNodes Sample.scheme in
  (∃ res network' table',
     mutablePut Sample.keyPair Sample.value_one {| opt_sequence := None |}
       Sample.network = (inr res, network') ∧
     res_seq res = 0%N ∧
     res_signature res = signature (Sample.record 0 Sample.value_one) ∧
     network' !! Sample.peer 49737 = Some table' ∧
     get (kp_publicKey Sample.keyPair) table'
       = Some (Sample.record 0 Sample.value_one)) ∧
  (∃ res network' table',
     mutablePut Sample.keyPair Sample.value_two {| opt_sequence := Some 2%N |}
       Sample.network = (inr res, network') ∧
     res_seq res = 2%N ∧
     res_signature res = signature (Sample.record 2 Sample.value_two) ∧
     network' !! Sample.peer 49737 = Some table' ∧
     get (kp_publicKey Sample.keyPair) table'
       = Some (Sample.record 2 Sample.value_two)).
Proof.
  intros mutablePut. split.
  - destruct (mutablePut_sequence Sample.generichash Sample.NS_MUTABLE_PUT
                Sample.mutableSignable Sample.scheme Sample.closestNodes
                Sample.scheme Sample.keyPair Sample.value_one
                {| opt_sequence := None |} Sample.network (Sample.peer 49737))
      as (res & network' & Hrun & _ & Hseq & Hsig & _ & _ & _ & _ & Hheld & _).
    + apply list_elem_of_here.
    + exists ∅. reflexivity.
    + destruct (Hheld (Sample.peer 49737) ∅) as (table' & Hlookup & Hget).
      * apply list_elem_of_here.
      * reflexivity.
      * apply sample_records_authentic.
      * intros cur H. rewrite lookup_empty in H. discriminate H.
      * exists res, network', table'. repeat split; assumption.
  - destruct (mutablePut_sequence Sample.generichash Sample.NS_MUTABLE_PUT
                Sample.mutableSignable Sample.scheme Sample.closestNodes
                Sample.scheme Sample.keyPair Sample.value_two
                {| opt_sequence := Some 2%N |} Sample.network (Sample.peer 49737))
      as (res & network' & Hrun & _ & Hseq & Hsig & _ & _ & _ & _ & Hheld & _).
    + apply list_elem_of_here.
    + exists ∅. reflexivity.
    + destruct (Hheld (Sample.peer 49737) ∅) as (table' & Hlookup & Hget).
      * apply list_elem_of_here.
      * reflexivity.
      * apply sample_records_authentic.
      * intros cur H. rewrite lookup_empty in H. discriminate H.
      * exists res, network', table'. repeat split; assumption.
Defined.
End StoreFacts.

(** ** The test network *)

Module NetFacts.
Import Net.

Ltac norm_world :=
  unfold set_arrays, set_next_array, set_next_node, set_trace, set_registered;
  cbn [arrays next_array next_node trace registered bound_port listening fails].

Lemma run_perform e w :
  fails w e = false →
  run (perform e) w = (Ok tt, set_trace (trace w ++ [e]) w).
Proof. intros H. unfold perform. simpl. rewrite H. reflexivity. Qed.

Lemma run_new_node cls options w :
  let node := {| node_id := next_node w; node_class := cls;
                 node_options := options |} in
  fails w (Constructed node) = false →
  run (new_node cls options) w =
  (Ok node, set_next_node (S (next_node w))
              (set_trace (trace w ++ [Constructed node]) w)).
Proof. intros node H. unfold new_node. simpl. fold node. rewrite H. reflexivity. Qed.

Lemma while_swarm_run n : ∀ size bootstrap bindHost swarm w,
  calm w →
  n = Z.to_nat (size - Z.of_nat (length swarm)) →
  let news := map (loop_node bootstrap bindHost) (seq (next_node w) n) in
  run (while_swarm size bootstrap bindHost swarm) w =
  (Ok (swarm ++ news),
   set_next_node (next_node w + n)
     (set_trace (trace w ++ concat (map startup news)) w)).
Proof.
  induction n as [|n IH]; intros size bootstrap bindHost swarm w Hcalm Hn news.
  - simp while_swarm. destruct (decide _) as [Hlt|Hge]; [lia|].
    unfold while_swarm_unfold_clause_1. rewrite run_ret. subst news. simpl. rewrite !app_nil_r, Nat.add_0_r.
    destruct w; reflexivity.
  - simp while_swarm. destruct (decide _) as [Hlt|Hge]; [|lia].
    unfold while_swarm_unfold_clause_1.
    erewrite run_bind_ok by (apply run_new_node, Hcalm).
    erewrite run_bind_ok by (apply run_perform, Hcalm).
    rewrite IH.
    + subst news. simpl. rewrite <- app_assoc. simpl.
      unfold set_next_node, set_trace; simpl.
      rewrite <- !app_assoc. simpl.
      repeat f_equal. lia.
    + exact Hcalm.
    + simpl. rewrite length_app. simpl. lia.
Qed.
Lemma run_new_array xs w :
  run (new_array xs) w =
  (Ok (next_array w),
   set_next_array (S (next_array w)) (set_arrays (insert (next_array w) xs) w)).
Proof. reflexivity. Qed.

Lemma run_array_length a xs w :
  arrays w !! a = Some xs → run (array_length a) w = (Ok (length xs), w).
Proof. intros H. unfold array_length. simpl. rewrite H. reflexivity. Qed.

Lemma run_push a x xs w :
  arrays w !! a = Some xs →
  run (push a x) w = (Ok tt, set_arrays (insert a (xs ++ [x])) w).
Proof. intros H. unfold push. simpl. rewrite H. reflexivity. Qed.

(** The run of [createStandardTestnet] for a size other than 0, in a world
    where nothing fails: the testnet it returns and the world it leaves. *)
Lemma createStandardTestnet_run size opts w :
  calm w →
  default 10%Z size ≠ 0%Z →
  let o := default empty_opts opts in
  let given := default [] (prop opts_bootstrap o) in
  let b := next_array w in
  let first := first_node o b (next_node w) in
  let contacts :=
    if decide (length given = 0)
    then [{| host := requested_host o; port := bound_port w (next_node w) |}]
    else given in
  let rest := map (loop_node b (bind_host o))
                  (seq (S (next_node w)) (Z.to_nat (default 10%Z size - 1))) in
  let testnet := {| nodes := first :: rest; bootstrap := b |} in
  run (createStandardTestnet size opts) w =
  (Ok testnet,
   {| arrays := <[b := contacts]> (arrays w);
      next_array := S b;
      next_node := S (next_node w) + length rest;
      trace := trace w ++ concat (map startup (first :: rest));
      registered := registered w ++ (if registers o then [testnet] else []);
      bound_port := bound_port w;
      listening := listening w;
      fails := fails w |}).
Proof.
  intros Hcalm Hsize o given b first contacts rest testnet.
  unfold createStandardTestnet.
  fold o. fold given.
  erewrite run_bind_ok by apply run_new_array.
  fold b. rewrite decide_False by exact Hsize.
  change (or_string (prop opts_host o) "127.0.0.1") with (requested_host o).
  change (if decide (requested_host o = "127.0.0.1") then "127.0.0.1" else "0.0.0.0")
    with (bind_host o).
  erewrite run_bind_ok by (apply run_new_node, Hcalm).
  simpl next_node. change {| node_id := next_node w; node_class := _; node_options := _ |}
    with first.
  erewrite run_bind_ok by (apply run_perform, Hcalm).
  erewrite run_bind_ok by (apply run_array_length; simpl; apply lookup_insert_eq).
  norm_world.
  assert (Hrest : length rest = Z.to_nat (default 10%Z size - 1))
    by (unfold rest; rewrite length_map, length_seq; reflexivity).
  erewrite (run_bind_ok _ _ _ tt
              {| arrays := <[b := contacts]> (arrays w);
                 next_array := S b;
                 next_node := S (next_node w);
                 trace := trace w ++ startup first;
                 registered := registered w;
                 bound_port := bound_port w;
                 listening := listening w;
                 fails := fails w |}).
  2:{ unfold contacts. destruct (decide (length given = 0)) as [Hnil|Hsome].
      - unfold address.
        erewrite run_bind_ok by reflexivity.
        cbv beta iota.
        erewrite run_push by (simpl; apply lookup_insert_eq).
        norm_world. rewrite insert_insert_eq, <- app_assoc.
        apply nil_length_inv in Hnil. rewrite Hnil. reflexivity.
      - rewrite run_ret. rewrite <- app_assoc. reflexivity. }
  erewrite run_bind_ok.
  2:{ apply while_swarm_run with (n := Z.to_nat (default 10%Z size - 1)).
      - exact Hcalm.
      - simpl. lia. }
  change (map _ (seq _ _)) with rest.
  norm_world.
  unfold new_Testnet. rewrite run_bind_ok with (a := testnet) (s' :=
    {| arrays := <[b := contacts]> (arrays w);
       next_array := S b;
       next_node := S (next_node w) + length rest;
       trace := trace w ++ concat (map startup (first :: rest));
       registered := registered w;
       bound_port := bound_port w;
       listening := listening w;
       fails := fails w |}).
  2:{ rewrite run_ret. rewrite Hrest. simpl. rewrite <- !app_assoc. reflexivity. }
  unfold registers.
  destruct o as [|o']; [| destruct (opts_teardown o')];
    rewrite ?app_nil_r; reflexivity.
Qed.
Lemma node_id_loop_nodes b bh ids :
  map node_id (map (loop_node b bh) ids) = ids.
Proof. induction ids as [|i ids IH]; simpl; [|rewrite IH]; reflexivity. Qed.

(** The nodes of a run have the identities [next_node w], [next_node w + 1],
    ... in this order. *)
Lemma node_ids_run o b bh k n :
  map node_id (first_node o b k :: map (loop_node b bh) (seq (S k) n)) = seq k (S n).
Proof. simpl. rewrite node_id_loop_nodes. reflexivity. Qed.

Lemma NoDup_of_ids (l : list Node) : NoDup (map node_id l) → NoDup l.
Proof. apply (NoDup_fmap_1 node_id). Qed.

Lemma Constructed_in_startups node (l : list Node) :
  Constructed node ∈ concat (map startup l) → node ∈ l.
Proof.
  induction l as [|x l IH]; simpl.
  - intros H. inversion H.
  - intros H. apply elem_of_cons in H as [H|H].
    + injection H as ->. apply list_elem_of_here.
    + apply elem_of_cons in H as [H|H]; [discriminate|].
      apply list_elem_of_further, IH, H.
Qed.

(** In the startup trace of a duplicate-free list of nodes, a node is
    constructed right after its predecessor has bootstrapped, and at no
    other place. *)
Lemma startups_consecutive (l : list Node) i a b :
  NoDup l → l !! i = Some a → l !! S i = Some b →
  ∃ before after,
    concat (map startup l) =
      before ++ (Bootstrapped (node_id a) :: Constructed b :: after) ∧
    (Constructed b ∉ before) ∧ (Constructed b ∉ after).
Proof.
  intros Hnd Ha Hb.
  exists (concat (map startup (take i l)) ++ [Constructed a]),
         (Bootstrapped (node_id b) :: concat (map startup (drop (S (S i)) l))).
  split; [|split].
  - assert (Hl : l = take i l ++ a :: b :: drop (S (S i)) l).
    { rewrite <- (drop_S l b (S i) Hb). symmetry. apply take_drop_middle, Ha. }
    rewrite Hl at 1.
    rewrite map_app, concat_app. simpl. rewrite <- app_assoc. reflexivity.
  - intros H. apply elem_of_app in H as [H|H].
    + apply Constructed_in_startups, list_elem_of_lookup in H as [j Hj].
      apply lookup_take_Some in Hj as [Hj Hlt].
      pose proof (NoDup_lookup _ _ _ _ Hnd Hj Hb). lia.
    + apply list_elem_of_singleton in H. injection H as ->.
      pose proof (NoDup_lookup _ _ _ _ Hnd Ha Hb). lia.
  - intros H. apply elem_of_cons in H as [H|H]; [discriminate|].
    apply Constructed_in_startups, list_elem_of_lookup in H as [j Hj].
    rewrite lookup_drop in Hj.
    pose proof (NoDup_lookup _ _ _ _ Hnd Hj Hb). lia.
Qed.
(** C5 (as amended).  For every creation with a size of at least 1 in a
    world where no action fails, a Testnet is returned.  When the caller
    supplied no bootstrap contacts, its bootstrap list holds exactly one
    entry: the requested host ([opts.host], or 127.0.0.1 when there is
    none) with the port the seed node is bound to.  The seed itself is
    constructed with [bindHost], which is 127.0.0.1 when that is the
    requested host and 0.0.0.0 otherwise, so the entry is the seed's bound
    host and port exactly when the requested host is 127.0.0.1 or 0.0.0.0.
    When the caller did supply contacts, the list holds these and nothing
    else. *)
Theorem bootstrap_list_of_testnet (size : option Z) (opts : option Opts) (w : World) :
  calm w →
  (1 ≤ default 10 size)%Z →
  let o := default empty_opts opts in
  ∃ t w' seed rest,
    run (createStandardTestnet size opts) w = (Ok t, w') ∧
    nodes t = seed :: rest ∧
    o_host (node_options seed) = bind_host o ∧
    (default [] (prop opts_bootstrap o) = [] →
       arrays w' !! bootstrap t =
         Some [{| host := requested_host o; port := bound_port w (node_id seed) |}]) ∧
    (default [] (prop opts_bootstrap o) = [] →
       (arrays w' !! bootstrap t =
          Some [{| host := o_host (node_options seed);
                   port := bound_port w (node_id seed) |}]
        ↔ requested_host o = "127.0.0.1" ∨ requested_host o = "0.0.0.0")) ∧
    (∀ given, prop opts_bootstrap o = Some given → given ≠ [] →
       arrays w' !! bootstrap t = Some given).
Proof.
  intros Hcalm Hsize o.
  eexists _, _, _, _.
  split; [apply createStandardTestnet_run; [exact Hcalm | lia]|].
  split; [reflexivity|]. fold o.
  split; [reflexivity|].
  simpl. rewrite lookup_insert_eq.
  split; [|split].
  - intros ->. reflexivity.
  - intros ->. cbn [length]. rewrite decide_True by reflexivity.
    unfold bind_host. split.
    + intros [= Hhost]. destruct (decide (requested_host o = "127.0.0.1"));
        [left; assumption | right; exact Hhost].
    + intros [Hhost|Hhost]; rewrite Hhost; reflexivity.
  - intros given -> Hgiven. simpl.
    destruct given; [congruence | reflexivity].
Qed.

(** C6.  For every creation with a size of at least 2 in a world where no
    action fails, the Testnet returned has the seed and [size - 1] further
    nodes.  The network actions of the call are, node after node in
    creation order, the construction of the node and then the completion
    of its bootstrap: each node after the seed is constructed right after
    its predecessor's bootstrap has completed, and nowhere else.  Every
    node after the seed is a standard node constructed with the very array
    that the Testnet holds as its bootstrap list. *)
Theorem nodes_created_one_after_the_other (size : option Z) (opts : option Opts)
    (w : World) :
  calm w →
  (2 ≤ default 10 size)%Z →
  ∃ t w' seed rest,
    run (createStandardTestnet size opts) w = (Ok t, w') ∧
    nodes t = seed :: rest ∧
    Z.of_nat (length rest) = (default 10 size - 1)%Z ∧
    trace w' = trace w ++ concat (map startup (nodes t)) ∧
    (∀ i a b, nodes t !! i = Some a → nodes t !! S i = Some b →
       ∃ before after,
         concat (map startup (nodes t)) =
           before ++ (Bootstrapped (node_id a) :: Constructed b :: after) ∧
         (Constructed b ∉ before) ∧ (Constructed b ∉ after)) ∧
    (∀ node, node ∈ rest →
       node_class node = StandardHyperDHT ∧
       o_bootstrap (node_options node) = bootstrap t).
Proof.
  intros Hcalm Hsize.
  eexists _, _, _, _.
  split; [apply createStandardTestnet_run; [exact Hcalm | lia]|].
  split; [reflexivity|].
  split; [rewrite length_map, length_seq; lia|].
  split; [reflexivity|].
  split.
  - intros i a b. apply startups_consecutive.
    apply NoDup_of_ids. cbn [nodes]. rewrite node_ids_run. apply NoDup_seq.
  - intros node Hin. cbn [bootstrap].
    apply list_elem_of_fmap in Hin as [id [-> _]]. split; reflexivity.
Qed.

(** C8.  Creation with size 0 returns a Testnet without nodes, whatever the
    options and the world: no node is constructed and the trace of network
    actions is left as it was. *)
Theorem size_zero_no_nodes (opts : option Opts) (w : World) :
  ∃ t w',
    run (createStandardTestnet (Some 0%Z) opts) w = (Ok t, w') ∧
    nodes t = [] ∧
    next_node w' = next_node w ∧
    trace w' = trace w.
Proof. eexists _, _. repeat split. Qed.

(** C10.  Creation with size 0 returns a Testnet whose bootstrap list is
    empty, also when the options carry bootstrap contacts: the list is a
    new array, not the copy of the caller's contacts.  No teardown is
    registered, also when the options carry a teardown function. *)
Theorem size_zero_empty_bootstrap (opts : option Opts) (w : World) :
  ∃ t w',
    run (createStandardTestnet (Some 0%Z) opts) w = (Ok t, w') ∧
    arrays w' !! bootstrap t = Some [] ∧
    registered w' = registered w.
Proof.
  eexists _, _. split; [reflexivity|]. simpl.
  split; [apply lookup_insert_eq | reflexivity].
Qed.
Lemma set_trace_same w : set_trace (trace w ++ []) w = w.
Proof. rewrite app_nil_r. destruct w; reflexivity. Qed.

Lemma run_close_servers node servers : ∀ w,
  calm w →
  run (for_of servers (λ server, close node server)) w =
  (Ok tt, set_trace (trace w ++ map (Closed (node_id node)) servers) w).
Proof.
  induction servers as [|s servers IH]; intros w Hcalm; cbn [for_of].
  - rewrite run_ret. simpl map. rewrite set_trace_same. reflexivity.
  - unfold close at 1.
    erewrite run_bind_ok by (apply run_perform, Hcalm).
    rewrite IH by exact Hcalm. norm_world.
    rewrite <- app_assoc. reflexivity.
Qed.

Lemma run_close_nodes (l : list Node) : ∀ w,
  calm w →
  run (for_of l (λ node,
         servers ← get_listening node;
         for_of servers (λ server, close node server))) w =
  (Ok tt, set_trace (trace w ++ concat (map (closes w) l)) w).
Proof.
  induction l as [|node l IH]; intros w Hcalm; cbn [for_of].
  - rewrite run_ret. simpl concat. rewrite set_trace_same. reflexivity.
  - erewrite run_bind_ok.
    2:{ unfold get_listening. erewrite run_bind_ok by reflexivity.
        apply run_close_servers, Hcalm. }
    rewrite IH by exact Hcalm. norm_world. simpl.
    rewrite <- app_assoc. reflexivity.
Qed.

Lemma run_destroy_down (l : list Node) k : ∀ w,
  calm w → k ≤ length l →
  run (destroy_down l k) w =
  (Ok tt, set_trace (trace w ++ map destroyed (reverse (take k l))) w).
Proof.
  induction k as [|i IH]; intros w Hcalm Hk; cbn [destroy_down].
  - rewrite run_ret, take_0. simpl. rewrite set_trace_same. reflexivity.
  - destruct (lookup_lt_is_Some_2 l i) as [node Hnode]; [lia|].
    rewrite Hnode. unfold node_destroy.
    erewrite run_bind_ok by (apply run_perform, Hcalm).
    rewrite IH by (exact Hcalm || lia). norm_world.
    rewrite (take_S_r l i node Hnode), reverse_snoc. simpl.
    rewrite <- app_assoc. reflexivity.
Qed.

(** C7.  In a world where no action fails, [destroy] completes, and the
    network actions it performs are: first the close of every listening
    server of every node, node after node, then the destruction of every
    node in the reverse of the creation order.  So every server is closed
    before the first node is destroyed, the node created last is destroyed
    first and the seed (the first node) is destroyed last. *)
Theorem destroy_closes_then_destroys_in_reverse (this : Testnet) (w : World) :
  calm w →
  ∃ w',
    run (destroy this) w = (Ok tt, w') ∧
    trace w' =
      trace w ++ concat (map (closes w) (nodes this))
              ++ map destroyed (reverse (nodes this)) ∧
    head (map destroyed (reverse (nodes this))) = destroyed <$> last (nodes this) ∧
    last (map destroyed (reverse (nodes this))) = destroyed <$> head (nodes this).
Proof.
  intros Hcalm. unfold destroy.
  erewrite run_bind_ok by (apply run_close_nodes, Hcalm).
  rewrite run_destroy_down by (exact Hcalm || lia).
  eexists. split; [reflexivity|]. norm_world.
  rewrite firstn_all, <- app_assoc.
  split; [reflexivity|].
  split.
  - rewrite <- (reverse_involutive (nodes this)) at 2.
    rewrite last_reverse. destruct (reverse (nodes this)); reflexivity.
  - change (map destroyed (reverse (nodes this)))
      with (destroyed <$> reverse (nodes this)).
    rewrite fmap_last, last_reverse. reflexivity.
Qed.
Lemma sample_world_calm : calm Sample.world.
Proof. intros e. reflexivity. Qed.

Lemma sample_testnet_created :
  (run (createStandardTestnet (Some 3%Z) (Some Sample.opts)) Sample.world).1
  = Ok Sample.testnet.
Proof. vm_compute. reflexivity. Qed.

(** C5, the claim as it is stated, at a concrete input.  The caller asks
    for one node on host 10.0.0.1 and supplies no bootstrap contacts.  The
    seed is bound to 0.0.0.0, on port 49737 in the sample world, and the
    one entry of the bootstrap list is 10.0.0.1 with that port: it is not
    the seed's bound host and port. *)
Lemma bootstrap_entry_is_not_the_bound_address :
  ∃ t w' seed,
    run (createStandardTestnet (Some 1%Z) (Some Sample.opts_other_host)) Sample.world
      = (Ok t, w') ∧
    nodes t = [seed] ∧
    o_host (node_options seed) = "0.0.0.0" ∧
    bound_port w' (node_id seed) = 49737%Z ∧
    arrays w' !! bootstrap t = Some [{| host := "10.0.0.1"; port := 49737 |}] ∧
    arrays w' !! bootstrap t ≠
      Some [{| host := o_host (node_options seed);
               port := bound_port w' (node_id seed) |}].
Proof.
  eexists _, _, _.
  split; [apply createStandardTestnet_run; [exact sample_world_calm | discriminate]|].
  split; [reflexivity|].
  split; [reflexivity|].
  split; [reflexivity|].
  split; [reflexivity|].
  vm_compute. discriminate.
Qed.

(** [bootstrap_list_of_testnet] for three nodes on host 10.0.0.1 in the
    sample world. *)
Lemma bootstrap_list_of_testnet_sample :
  let o := Sample.opts_other_host in
  ∃ t w' seed rest,
    run (createStandardTestnet (Some 3%Z) (Some o)) Sample.world = (Ok t, w') ∧
    nodes t = seed :: rest ∧
    o_host (node_options seed) = bind_host o ∧
    (default [] (prop opts_bootstrap o) = [] →
       arrays w' !! bootstrap t =
         Some [{| host := requested_host o;
                  port := bound_port Sample.world (node_id seed) |}]) ∧
    (default [] (prop opts_bootstrap o) = [] →
       (arrays w' !! bootstrap t =
          Some [{| host := o_host (node_options seed);
                   port := bound_port Sample.world (node_id seed) |}]
        ↔ requested_host o = "127.0.0.1" ∨ requested_host o = "0.0.0.0")) ∧
    (∀ given, prop opts_bootstrap o = Some given → given ≠ [] →
       arrays w' !! bootstrap t = Some given).
Proof.
  apply (bootstrap_list_of_testnet (Some 3%Z) (Some Sample.opts_other_host)
           Sample.world).
  - exact sample_world_calm.
  - simpl. lia.
Defined.

(** [nodes_created_one_after_the_other] for three nodes in the sample
    world. *)
Lemma nodes_created_one_after_the_other_sample :
  ∃ t w' seed rest,
    run (createStandardTestnet (Some 3%Z) (Some Sample.opts)) Sample.world
      = (Ok t, w') ∧
    nodes t = seed :: rest ∧
    Z.of_nat (length rest) = (3 - 1)%Z ∧
    trace w' = trace Sample.world ++ concat (map startup (nodes t)) ∧
    (∀ i a b, nodes t !! i = Some a → nodes t !! S i = Some b →
       ∃ before after,
         concat (map startup (nodes t)) =
           before ++ (Bootstrapped (node_id a) :: Constructed b :: after) ∧
         (Constructed b ∉ before) ∧ (Constructed b ∉ after)) ∧
    (∀ node, node ∈ rest →
       node_class node = StandardHyperDHT ∧
       o_bootstrap (node_options node) = bootstrap t).
Proof.
  apply (nodes_created_one_after_the_other (Some 3%Z) (Some Sample.opts)
           Sample.world).
  - exact sample_world_calm.
  - simpl. lia.
Defined.

(** [destroy_closes_then_destroys_in_reverse] for the sample testnet of
    three nodes. *)
Lemma destroy_closes_then_destroys_in_reverse_sample :
  ∃ w',
    run (destroy Sample.testnet) Sample.world = (Ok tt, w') ∧
    trace w' =
      [Closed 0 0; Closed 0 1; Closed 1 2; Closed 1 3; Closed 2 4; Closed 2 5;
       Destroyed 2; Destroyed 1; Destroyed 0] ∧
    head (map destroyed (reverse (nodes Sample.testnet))) = Some (Destroyed 2) ∧
    last (map destroyed (reverse (nodes Sample.testnet))) = Some (Destroyed 0).
Proof.
  exact (destroy_closes_then_destroys_in_reverse Sample.testnet Sample.world
           sample_world_calm).
Defined.
End NetFacts.

(** ** More on the hash functions, and the direct tests *)

Module DirectFacts.
Import Mem Direct.

Lemma run_read b bs h : bytes h b = Some bs → run (read b) h = (Ok bs, h).
Proof. intros H. unfold read. simpl. rewrite H. reflexivity. Qed.

(** A view keeps its bytes when another store is written. *)
Lemma bytes_insert_ne c n j s bs b :
  store b ≠ s →
  bytes {| cells := <[s := bs]> c; next := n; junk := j |} b =
  bytes {| cells := c; next := n; junk := j |} b.
Proof.
  intros Hne. unfold bytes. cbn [cells]. rewrite lookup_insert_ne by congruence.
  reflexivity.
Qed.

(** What a view on a whole, newly written store shows. *)
Lemma bytes_insert_eq c n j s bs slab len :
  len = length bs →
  bytes {| cells := <[s := bs]> c; next := n; junk := j |}
        {| store := s; byteOffset := 0; byteLength := len; pooled := slab |}
  = Some bs.
Proof.
  intros ->.
  apply MemFacts.bytes_whole; cbn; [apply lookup_insert_eq | reflexivity | reflexivity].
Qed.

Section MoreHashFacts.
Variable generichash : nat → list byte → list byte.
Hypothesis generichash_length : ∀ n data, length (generichash n data) = n.

(** X10.  [unslabbedHash] writes to memory of its own only: its output is
    not a slice of the slab, and on a heap whose stores lie below the next
    free one, every Buffer that existed before the call shows the bytes it
    showed; the heap after the call is again of that kind.  (Nothing of the
    sort is stated for [hash], whose output is a slice of the slab.) *)
Theorem unslabbedHash_keeps_existing_buffers (data : list byte) (h : Heap)
    (b : Buffer) :
  well_formed h →
  is_Some (cells h !! store b) →
  ∃ out h',
    run (unslabbedHash generichash data) h = (Ok out, h') ∧
    pooled out = false ∧
    bytes h' b = bytes h b ∧
    well_formed h'.
Proof.
  intros Hwf Hb. pose proof (Hwf _ Hb) as Hlt.
  unfold unslabbedHash, allocUnsafeSlow.
  rewrite (MemFacts.run_hash_alloc generichash generichash_length).
  eexists _, _. split; [reflexivity|]. split; [reflexivity|]. split.
  - rewrite bytes_insert_ne by lia. destruct h; reflexivity.
  - intros s. cbn [cells next]. destruct (decide (s = next h)) as [->|Hne]; [lia|].
    rewrite lookup_insert_ne by congruence. intros Hs. specialize (Hwf _ Hs). lia.
Qed.

(** X11.  Two calls of [hash], or of [unslabbedHash], return two Buffers
    on different stores; after the second call the first Buffer still
    holds the digest of the first input: a later call does not overwrite
    an earlier result. *)
Theorem hash_results_do_not_overlap (first second : list byte) (h : Heap) :
  (∃ a b h',
      run (twice (hash generichash) first second) h = (Ok (a, b), h') ∧
      store a ≠ store b ∧
      bytes h' a = Some (generichash 32 first) ∧
      bytes h' b = Some (generichash 32 second)) ∧
  (∃ a b h',
      run (twice (unslabbedHash generichash) first second) h = (Ok (a, b), h') ∧
      store a ≠ store b ∧
      bytes h' a = Some (generichash 32 first) ∧
      bytes h' b = Some (generichash 32 second)).
Proof.
  unfold twice, hash, unslabbedHash, allocUnsafe, allocUnsafeSlow.
  split.
  all: erewrite run_bind_ok
         by apply (MemFacts.run_hash_alloc generichash generichash_length).
  all: erewrite run_bind_ok
         by apply (MemFacts.run_hash_alloc generichash generichash_length).
  all: rewrite run_ret; cbn [next cells junk].
  all: eexists _, _, _; split; [reflexivity|]; cbn [store].
  all: split; [lia|]; split.
  all: try (rewrite bytes_insert_ne by (cbn; lia)).
  all: apply bytes_insert_eq; rewrite generichash_length; reflexivity.
Qed.

Variable NS_MUTABLE_PUT : list byte.
Hypothesis NS_MUTABLE_PUT_length : length NS_MUTABLE_PUT = 32.
Variable mutableSignable : N → list byte → list byte.

Local Abbreviation signable_of seq value :=
  (Store.signable generichash NS_MUTABLE_PUT mutableSignable seq value).

Lemma signable_of_length seq value : length (signable_of seq value) = 64.
Proof.
  unfold Store.signable.
  rewrite length_app, NS_MUTABLE_PUT_length, generichash_length. reflexivity.
Qed.

(** X12.  For a sequence that is a safe integer, the second half of the
    signable is what [hash] of [lib/crypto.js] returns on the encoding of
    the sequence and the value: the view [hash = signable.subarray(32)] of
    the tests and the Buffer returned by [hash] hold the same 32 bytes, and
    the signable is the namespace followed by them. *)
Theorem signable_tail_is_hash_of_encoding (seq : N) (value : list byte)
    (h h' : Heap) :
  (seq ≤ MAX_SAFE_INTEGER)%N →
  ∃ s hs out ho digest,
    run (signable generichash NS_MUTABLE_PUT mutableSignable seq value) h
      = (Ok s, hs) ∧
    run (hash generichash (mutableSignable seq value)) h' = (Ok out, ho) ∧
    bytes ho out = Some digest ∧
    bytes hs (subarray s 32) = Some digest ∧
    bytes hs s = Some (NS_MUTABLE_PUT ++ digest).
Proof.
  intros Hsafe.
  exists {| store := next h; byteOffset := 0; byteLength := 64; pooled := true |}.
  eexists _, _, _, (generichash 32 (mutableSignable seq value)).
  split; [apply (MemFacts.run_signable generichash generichash_length
                   NS_MUTABLE_PUT NS_MUTABLE_PUT_length), Hsafe|].
  split; [apply (MemFacts.run_hash_alloc generichash generichash_length)|].
  split; [|split].
  - apply bytes_insert_eq. rewrite generichash_length. reflexivity.
  - unfold bytes, subarray. cbn. rewrite lookup_insert_eq. cbn.
    rewrite length_app, NS_MUTABLE_PUT_length, generichash_length.
    case_decide; [|lia].
    rewrite drop_app_length' by (symmetry; exact NS_MUTABLE_PUT_length).
    rewrite take_ge by (rewrite generichash_length; lia). reflexivity.
  - apply bytes_insert_eq. symmetry. apply signable_of_length.
Qed.
Context (red25519 standard : Store.Scheme).
Variable sign_slab : bool.

Lemma run_signable_of seq value h :
  (seq ≤ MAX_SAFE_INTEGER)%N →
  run (signable generichash NS_MUTABLE_PUT mutableSignable seq value) h =
  (Ok {| store := next h; byteOffset := 0; byteLength := 64; pooled := true |},
   {| cells := <[next h := signable_of seq value]> (cells h);
      next := S (next h); junk := junk h |}).
Proof.
  apply (MemFacts.run_signable generichash generichash_length
           NS_MUTABLE_PUT NS_MUTABLE_PUT_length).
Qed.

(** [crypto.sign] returns a new Buffer that holds the signature of the
    bytes of the message. *)
Lemma run_crypto_sign message m secretKey h :
  bytes h message = Some m →
  let s := @Store.sign red25519 m secretKey in
  run (crypto_sign red25519 sign_slab message secretKey) h =
  (Ok {| store := next h; byteOffset := 0; byteLength := length s;
         pooled := sign_slab |},
   {| cells := <[next h := s]> (cells h); next := S (next h); junk := junk h |}).
Proof.
  intros Hm s. unfold crypto_sign.
  erewrite run_bind_ok by (apply run_read, Hm). fold s.
  erewrite run_bind_ok by apply MemFacts.run_alloc.
  erewrite run_bind_ok.
  2:{ eapply MemFacts.run_write; cbn.
      - apply lookup_insert_eq.
      - lia.
      - rewrite MemFacts.uninitialised_length. lia. }
  rewrite run_ret. cbn [cells next junk store byteOffset byteLength Nat.add].
  rewrite insert_insert_eq.
  rewrite MemFacts.splice_all by (rewrite MemFacts.uninitialised_length; reflexivity).
  reflexivity.
Qed.

Lemma run_crypto_sign_verify_detached signature message publicKey s m h :
  bytes h signature = Some s → bytes h message = Some m →
  run (crypto_sign_verify_detached standard signature message publicKey) h =
  (Ok (@Store.verify standard m s publicKey), h).
Proof.
  intros Hs Hm. unfold crypto_sign_verify_detached.
  erewrite run_bind_ok by (apply run_read, Hs).
  erewrite run_bind_ok by (apply run_read, Hm).
  apply run_ret.
Qed.

Lemma run_crypto_verify message signature publicKey s m h :
  bytes h message = Some m → bytes h signature = Some s →
  run (crypto_verify red25519 message signature publicKey) h =
  (Ok (@Store.verify red25519 m s publicKey), h).
Proof.
  intros Hm Hs. unfold crypto_verify.
  erewrite run_bind_ok by (apply run_read, Hm).
  erewrite run_bind_ok by (apply run_read, Hs).
  apply run_ret.
Qed.

(** [sodium.crypto_sign_detached] on a whole store of the size of the
    signature leaves the signature there and nothing else. *)
Lemma run_crypto_sign_detached signature message secretKey m old h :
  bytes h message = Some m →
  cells h !! store signature = Some old →
  byteOffset signature = 0 →
  byteLength signature = length old →
  length (@Store.sign standard m secretKey) = length old →
  run (crypto_sign_detached standard signature message secretKey) h =
  (Ok tt, {| cells := <[store signature := @Store.sign standard m secretKey]> (cells h);
             next := next h; junk := junk h |}).
Proof.
  intros Hm Hold Hoff Hlen Hs. unfold crypto_sign_detached.
  erewrite run_bind_ok by (apply run_read, Hm).
  erewrite MemFacts.run_write; [| exact Hold | lia | lia].
  rewrite Hoff. cbn [Nat.add]. rewrite MemFacts.splice_all by exact Hs.
  reflexivity.
Qed.

(** X13.  The test "red25519 sign - standard verify" runs to its end on
    every heap and for every key pair, for every sequence that is a safe
    integer (the test uses 0).  Its first assertion holds exactly
    when the red25519 signature has 64 bytes.  Its second assertion is the
    standard verification, under the public key of the pair, of the
    red25519 signature of the signable (the namespace followed by the hash
    of the encoding) against that same signable: the Buffer that is
    verified holds the bytes that were signed. *)
Theorem red25519_sign_standard_verify_outcome
    (keyPair : Store.KeyPair) (seq : N) (value : list byte) (h : Heap) :
  (seq ≤ MAX_SAFE_INTEGER)%N →
  let s := @Store.sign red25519 (signable_of seq value)
             (Store.kp_secretKey keyPair) in
  ∃ h',
    run (red25519_sign_standard_verify generichash NS_MUTABLE_PUT mutableSignable
           red25519 standard sign_slab keyPair seq value) h =
    (Ok [bool_decide (length s = 64);
         @Store.verify standard (signable_of seq value) s
           (Store.kp_publicKey keyPair)], h').
Proof.
  intros Hsafe s. unfold red25519_sign_standard_verify.
  erewrite run_bind_ok by apply run_signable_of, Hsafe.
  erewrite run_bind_ok.
  2:{ apply run_crypto_sign. apply bytes_insert_eq. symmetry. apply signable_of_length. }
  fold s. cbn [next cells junk byteLength].
  erewrite run_bind_ok by apply run_signable_of, Hsafe.
  cbn [next cells junk].
  erewrite run_bind_ok.
  2:{ apply run_crypto_sign_verify_detached.
      - rewrite bytes_insert_ne by (cbn; lia). apply bytes_insert_eq. reflexivity.
      - apply bytes_insert_eq. symmetry. apply signable_of_length. }
  rewrite run_ret. eexists. reflexivity.
Qed.

Hypothesis standard_signature_length :
  ∀ m secretKey, length (@Store.sign standard m secretKey) = 64.

(** X14.  The test "standard sign - red25519 verify" runs to its end on
    every heap and for every key pair, for every sequence that is a safe
    integer (the test uses 0), when standard signatures have 64 bytes.  Its first assertion holds.  Its second assertion is the
    red25519 verification, under the public key of the pair, of the
    standard signature of the signable against that same signable; nothing
    of the uninitialised signature Buffer is left in what is verified. *)
Theorem standard_sign_red25519_verify_outcome
    (keyPair : Store.KeyPair) (seq : N) (value : list byte) (h : Heap) :
  (seq ≤ MAX_SAFE_INTEGER)%N →
  let s := @Store.sign standard (signable_of seq value)
             (Store.kp_secretKey keyPair) in
  ∃ h',
    run (standard_sign_red25519_verify generichash NS_MUTABLE_PUT mutableSignable
           red25519 standard keyPair seq value) h =
    (Ok [true;
         @Store.verify red25519 (signable_of seq value) s
           (Store.kp_publicKey keyPair)], h').
Proof.
  intros Hsafe s. unfold standard_sign_red25519_verify.
  erewrite run_bind_ok by apply run_signable_of, Hsafe.
  unfold allocUnsafe. erewrite run_bind_ok by apply MemFacts.run_alloc.
  cbn [next cells junk].
  erewrite run_bind_ok.
  2:{ eapply run_crypto_sign_detached; cbn [store byteOffset byteLength cells].
      - rewrite bytes_insert_ne by (cbn; lia).
        apply bytes_insert_eq. symmetry. apply signable_of_length.
      - apply lookup_insert_eq.
      - reflexivity.
      - rewrite MemFacts.uninitialised_length. reflexivity.
      - rewrite standard_signature_length, MemFacts.uninitialised_length.
        reflexivity. }
  fold s. cbn [next cells junk store]. rewrite insert_insert_eq.
  erewrite run_bind_ok by apply run_signable_of, Hsafe.
  cbn [next cells junk byteLength].
  erewrite run_bind_ok.
  2:{ apply run_crypto_verify.
      - apply bytes_insert_eq. symmetry. apply signable_of_length.
      - rewrite bytes_insert_ne by (cbn; lia). apply bytes_insert_eq.
        unfold s. rewrite standard_signature_length. reflexivity. }
  rewrite run_ret. eexists. reflexivity.
Qed.
End MoreHashFacts.

(** *** The properties on the sample inputs *)

Lemma sample_heap_one_well_formed : well_formed Sample2.heap_one.
Proof.
  intros s [bs Hs]. cbn in Hs.
  apply lookup_singleton_Some in Hs as [<- _]. cbn. lia.
Qed.

Lemma sample_scheme64_signature_length m secretKey :
  length (@Store.sign Sample2.scheme64 m secretKey) = 64.
Proof.
  change (length (take 64 (secretKey ++ m ++ replicate 64 x00)) = 64).
  rewrite length_take, !length_app, length_replicate. lia.
Qed.

Lemma unslabbedHash_keeps_existing_buffers_sample :
  ∃ out h',
    run (unslabbedHash Sample.generichash Sample.value_one) Sample2.heap_one
      = (Ok out, h') ∧
    pooled out = false ∧
    bytes h' Sample2.buffer_one = bytes Sample2.heap_one Sample2.buffer_one ∧
    well_formed h'.
Proof.
  apply (unslabbedHash_keeps_existing_buffers Sample.generichash
           MemFacts.sample_generichash_length Sample.value_one
           Sample2.heap_one Sample2.buffer_one).
  - exact sample_heap_one_well_formed.
  - exists [x01; x02]. reflexivity.
Defined.

Lemma hash_results_do_not_overlap_sample :
  (∃ a b h',
      run (twice (hash Sample.generichash) Sample.value_one Sample.value_two)
          Sample.heap = (Ok (a, b), h') ∧
      store a ≠ store b ∧
      bytes h' a = Some (Sample.generichash 32 Sample.value_one) ∧
      bytes h' b = Some (Sample.generichash 32 Sample.value_two)) ∧
  (∃ a b h',
      run (twice (unslabbedHash Sample.generichash) Sample.value_one Sample.value_two)
          Sample.heap = (Ok (a, b), h') ∧
      store a ≠ store b ∧
      bytes h' a = Some (Sample.generichash 32 Sample.value_one) ∧
      bytes h' b = Some (Sample.generichash 32 Sample.value_two)).
Proof.
  exact (hash_results_do_not_overlap Sample.generichash
           MemFacts.sample_generichash_length Sample.value_one Sample.value_two
           Sample.heap).
Defined.

Lemma signable_tail_is_hash_of_encoding_sample :
  ∃ s hs out ho digest,
    run (signable Sample.generichash Sample.NS_MUTABLE_PUT Sample.mutableSignable
           2%N Sample.value_two) Sample.heap = (Ok s, hs) ∧
    run (hash Sample.generichash (Sample.mutableSignable 2%N Sample.value_two))
        Sample2.heap_one = (Ok out, ho) ∧
    bytes ho out = Some digest ∧
    bytes hs (subarray s 32) = Some digest ∧
    bytes hs s = Some (Sample.NS_MUTABLE_PUT ++ digest).
Proof.
  apply (signable_tail_is_hash_of_encoding Sample.generichash
           MemFacts.sample_generichash_length Sample.NS_MUTABLE_PUT
           MemFacts.sample_NS_MUTABLE_PUT_length Sample.mutableSignable
           2%N Sample.value_two Sample.heap Sample2.heap_one).
  unfold MAX_SAFE_INTEGER. lia.
Defined.

Lemma red25519_sign_standard_verify_outcome_sample :
  let signable :=
    Store.signable Sample.generichash Sample.NS_MUTABLE_PUT Sample.mutableSignable
      0%N Sample.value_one in
  let s := @Store.sign Sample.scheme signable (Store.kp_secretKey Sample.keyPair) in
  ∃ h',
    run (red25519_sign_standard_verify Sample.generichash Sample.NS_MUTABLE_PUT
           Sample.mutableSignable Sample.scheme Sample2.scheme64 false
           Sample.keyPair 0%N Sample.value_one) Sample.heap =
    (Ok [bool_decide (length s = 64);
         @Store.verify Sample2.scheme64 signable s
           (Store.kp_publicKey Sample.keyPair)], h').
Proof.
  apply (red25519_sign_standard_verify_outcome Sample.generichash
           MemFacts.sample_generichash_length Sample.NS_MUTABLE_PUT
           MemFacts.sample_NS_MUTABLE_PUT_length Sample.mutableSignable
           Sample.scheme Sample2.scheme64 false
           Sample.keyPair 0%N Sample.value_one Sample.heap).
  unfold MAX_SAFE_INTEGER. lia.
Defined.

Lemma standard_sign_red25519_verify_outcome_sample :
  let signable :=
    Store.signable Sample.generichash Sample.NS_MUTABLE_PUT Sample.mutableSignable
      0%N Sample.value_one in
  let s := @Store.sign Sample2.scheme64 signable (Store.kp_secretKey Sample.keyPair) in
  ∃ h',
    run (standard_sign_red25519_verify Sample.generichash Sample.NS_MUTABLE_PUT
           Sample.mutableSignable Sample2.scheme64 Sample2.scheme64
           Sample.keyPair 0%N Sample.value_one) Sample.heap =
    (Ok [true;
         @Store.verify Sample2.scheme64 signable s
           (Store.kp_publicKey Sample.keyPair)], h').
Proof.
  apply (standard_sign_red25519_verify_outcome Sample.generichash
           MemFacts.sample_generichash_length Sample.NS_MUTABLE_PUT
           MemFacts.sample_NS_MUTABLE_PUT_length Sample.mutableSignable
           Sample2.scheme64 Sample2.scheme64
           sample_scheme64_signature_length
           Sample.keyPair 0%N Sample.value_one Sample.heap).
  unfold MAX_SAFE_INTEGER. lia.
Defined.
End DirectFacts.

(** ** The test network in any world *)

Module PlanFacts.
Import Net Plan.

Ltac norm_world :=
  unfold after, set_arrays, set_next_array, set_next_node, set_trace, set_registered;
  cbn [arrays next_array next_node trace registered bound_port listening fails].

Lemma first_failure_app fails l1 l2 :
  first_failure fails (l1 ++ l2) =
  match first_failure fails l1 with
  | Some x => Some x
  | None => match first_failure fails l2 with
            | Some (done, e) => Some (l1 ++ done, e)
            | None => None
            end
  end.
Proof.
  induction l1 as [|e l1 IH]; simpl.
  - destruct (first_failure fails l2) as [[done f]|]; reflexivity.
  - destruct (fails e); [reflexivity|]. rewrite IH.
    destruct (first_failure fails l1) as [[done f]|]; [reflexivity|].
    destruct (first_failure fails l2) as [[done f]|]; reflexivity.
Qed.

(** What [first_failure] finds: the actions before the failure do not
    fail, the failure does, and the plan goes on from there. *)
Lemma first_failure_Some fails plan done e :
  first_failure fails plan = Some (done, e) ↔
  (∃ rest, plan = done ++ e :: rest) ∧ Forall (λ x, fails x = false) done
  ∧ fails e = true.
Proof.
  revert done. induction plan as [|x plan IH]; intros done; simpl.
  - split; [discriminate|]. intros [[rest H] _]. destruct done; discriminate.
  - destruct (fails x) eqn:Hx.
    + split.
      * intros [= <- <-]. split; [exists plan; reflexivity|]. split; [constructor | exact Hx].
      * intros [[rest H] [Hdone He]]. destruct done as [|d done]; simpl in H.
        -- injection H as -> _. reflexivity.
        -- injection H as -> _. inversion Hdone; congruence.
    + destruct (first_failure fails plan) as [[done' f]|] eqn:Hff.
      * split.
        -- intros [= <- <-]. destruct (proj1 (IH done') eq_refl) as [[rest ->] [Hd Hf]].
           split; [exists rest; reflexivity|]. split; [constructor; assumption | exact Hf].
        -- intros [[rest H] [Hdone He]]. destruct done as [|d done]; simpl in H.
           ++ injection H as -> _. congruence.
           ++ injection H as -> H. inversion Hdone; subst.
              assert (Some (done', f) = Some (done, e)) as [= -> ->]; [|reflexivity].
              apply IH. split; [exists rest; reflexivity|]. split; assumption.
      * split; [discriminate|].
        intros [[rest H] [Hdone He]]. destruct done as [|d done]; simpl in H.
        -- injection H as -> _. congruence.
        -- injection H as -> H. inversion Hdone; subst.
           assert (None = Some (done, e)); [|discriminate].
           apply IH. split; [exists rest; reflexivity|]. split; assumption.
Qed.

Lemma first_failure_calm w plan : calm w → first_failure (fails w) plan = None.
Proof.
  intros Hcalm. induction plan as [|e plan IH]; simpl; [reflexivity|].
  rewrite Hcalm, IH. reflexivity.
Qed.

Lemma after_nil w : after w [] = w.
Proof. norm_world. simpl. rewrite app_nil_r, Nat.add_0_r. destruct w; reflexivity. Qed.

Lemma run_perform_any e w :
  run (perform e) w =
  if fails w e then (Throw (Failed e), w)
  else (Ok tt, set_trace (trace w ++ [e]) w).
Proof. reflexivity. Qed.

Lemma run_new_node_any cls options w :
  let node := {| node_id := next_node w; node_class := cls;
                 node_options := options |} in
  run (new_node cls options) w =
  if fails w (Constructed node) then (Throw (Failed (Constructed node)), w)
  else (Ok node, set_next_node (S (next_node w))
                   (set_trace (trace w ++ [Constructed node]) w)).
Proof. reflexivity. Qed.

(** The loop in any world: it performs its plan up to the first failure. *)
Lemma while_swarm_any n : ∀ size bootstrap bindHost swarm w,
  n = Z.to_nat (size - Z.of_nat (length swarm)) →
  let news := map (loop_node bootstrap bindHost) (seq (next_node w) n) in
  run (while_swarm size bootstrap bindHost swarm) w =
  match first_failure (fails w) (concat (map startup news)) with
  | None => (Ok (swarm ++ news), after w (concat (map startup news)))
  | Some (done, e) => (Throw (Failed e), after w done)
  end.
Proof.
  induction n as [|n IH]; intros size bootstrap bindHost swarm w Hn news.
  - simp while_swarm. destruct (decide _) as [Hlt|Hge]; [lia|].
    unfold while_swarm_unfold_clause_1. rewrite run_ret. subst news. simpl.
    rewrite app_nil_r, after_nil. reflexivity.
  - simp while_swarm. destruct (decide _) as [Hlt|Hge]; [|lia].
    unfold while_swarm_unfold_clause_1.
    rewrite run_bind, run_new_node_any. subst news. cbn [seq map concat startup app].
    cbn [first_failure].
    change {| node_id := next_node w; node_class := StandardHyperDHT; node_options := _ |}
      with (loop_node bootstrap bindHost (next_node w)).
    destruct (fails w (Constructed _)) eqn:HC.
    { rewrite after_nil. reflexivity. }
    rewrite run_bind. unfold fullyBootstrapped. rewrite run_perform_any.
    cbn [fails set_next_node set_trace node_id loop_node].
    destruct (fails w (Bootstrapped _)) eqn:HB.
    { norm_world. simpl. rewrite Nat.add_1_r. reflexivity. }
    rewrite (IH size bootstrap bindHost) by (rewrite length_app; simpl; lia).
    cbn [fails next_node set_next_node set_trace].
    destruct (first_failure _ _) as [[done e]|].
    + norm_world. simpl. rewrite <- !app_assoc. simpl.
      repeat f_equal. lia.
    + norm_world. simpl. rewrite <- !app_assoc. simpl.
      repeat f_equal. lia.
Qed.
(** [createStandardTestnet] for a size other than 0 in any world: it
    performs its plan up to the first failing action and throws the
    failure; when none fails it returns the testnet and registers the
    teardown.  The bootstrap array has received the seed's address once the
    seed has bootstrapped. *)
Lemma createStandardTestnet_any size opts w :
  default 10%Z size ≠ 0%Z →
  let o := default empty_opts opts in
  let given := default [] (prop opts_bootstrap o) in
  let b := next_array w in
  let first := first_node o b (next_node w) in
  let contacts :=
    if decide (length given = 0)
    then [{| host := requested_host o; port := bound_port w (next_node w) |}]
    else given in
  let rest := map (loop_node b (bind_host o))
                  (seq (S (next_node w)) (Z.to_nat (default 10%Z size - 1))) in
  let testnet := {| nodes := first :: rest; bootstrap := b |} in
  let world done list registered :=
    {| arrays := <[b := list]> (arrays w);
       next_array := S b;
       next_node := next_node w + length (constructed_ids done);
       trace := trace w ++ done;
       registered := registered;
       bound_port := bound_port w;
       listening := listening w;
       fails := fails w |} in
  run (createStandardTestnet size opts) w =
  match first_failure (fails w) (creation_plan size opts w) with
  | None =>
      (Ok testnet,
       world (creation_plan size opts w) contacts
             (registered w ++ (if registers o then [testnet] else [])))
  | Some (done, e) =>
      (Throw (Failed e),
       world done (if decide (2 ≤ length done) then contacts else given)
             (registered w))
  end.
Proof.
  intros Hsize o given b first contacts rest testnet world.
  unfold creation_plan. fold o. rewrite decide_False by exact Hsize.
  fold b. fold first. fold rest.
  unfold createStandardTestnet.
  fold o. fold given.
  erewrite run_bind_ok by apply NetFacts.run_new_array.
  fold b. rewrite decide_False by exact Hsize.
  change (or_string (prop opts_host o) "127.0.0.1") with (requested_host o).
  change (if decide (requested_host o = "127.0.0.1") then "127.0.0.1" else "0.0.0.0")
    with (bind_host o).
  rewrite run_bind, run_new_node_any.
  cbn [fails next_node set_next_array set_arrays].
  change {| node_id := next_node w; node_class := _; node_options := _ |} with first.
  cbn [map concat startup app first_failure].
  destruct (fails w (Constructed first)) eqn:HC.
  { unfold world. norm_world. simpl.
    rewrite app_nil_r, Nat.add_0_r. reflexivity. }
  rewrite run_bind. unfold fullyBootstrapped. rewrite run_perform_any.
  cbn [fails set_next_node set_trace set_next_array set_arrays].
  replace (node_id first) with (next_node w) by reflexivity.
  destruct (fails w (Bootstrapped (next_node w))) eqn:HB.
  { unfold world. norm_world. simpl. rewrite Nat.add_1_r. reflexivity. }
  erewrite run_bind_ok by (apply NetFacts.run_array_length; simpl; apply lookup_insert_eq).
  norm_world.
  erewrite (run_bind_ok _ _ _ tt
              {| arrays := <[b := contacts]> (arrays w);
                 next_array := S b;
                 next_node := S (next_node w);
                 trace := trace w ++ startup first;
                 registered := registered w;
                 bound_port := bound_port w;
                 listening := listening w;
                 fails := fails w |}).
  2:{ unfold contacts. destruct (decide (length given = 0)) as [Hnil|Hsome].
      - unfold address.
        erewrite run_bind_ok by reflexivity.
        cbv beta iota.
        erewrite NetFacts.run_push by (simpl; apply lookup_insert_eq).
        norm_world. rewrite insert_insert_eq, <- app_assoc.
        apply nil_length_inv in Hnil. rewrite Hnil. reflexivity.
      - rewrite run_ret. rewrite <- app_assoc. reflexivity. }
  rewrite run_bind.
  rewrite (while_swarm_any (Z.to_nat (default 10%Z size - 1)))
    by (simpl; lia).
  cbn [fails next_node]. fold rest.
  destruct (first_failure (fails w) (concat (map startup rest))) as [[done e]|].
  - unfold world. norm_world.
    case_decide; [| simpl in *; lia].
    rewrite <- !app_assoc. simpl.
    repeat f_equal. lia.
  - unfold new_Testnet.
    rewrite run_bind, run_ret. unfold world. norm_world.
    assert (Hids : length (constructed_ids (concat (map startup rest))) = length rest).
    { clear. induction rest as [|x l IH]; simpl; [reflexivity|]. rewrite IH. reflexivity. }
    simpl length. rewrite Hids.
    unfold registers.
    destruct o as [|o']; [| destruct (opts_teardown o')];
      rewrite run_bind; simpl; rewrite ?app_nil_r, <- ?app_assoc; simpl.
    all: norm_world;
      replace (next_node w + S (length rest)) with (S (next_node w + length rest))
        by lia;
      reflexivity.
Qed.
Lemma set_trace_nil w : set_trace (trace w ++ []) w = w.
Proof. rewrite app_nil_r. destruct w; reflexivity. Qed.

(** A list of awaited actions, each through [act], performs the actions up
    to the first failing one. *)
Lemma run_actions {A} (act : A → Event) (xs : list A) : ∀ w,
  run (for_of xs (λ x, perform (act x))) w =
  match first_failure (fails w) (map act xs) with
  | None => (Ok tt, set_trace (trace w ++ map act xs) w)
  | Some (done, e) => (Throw (Failed e), set_trace (trace w ++ done) w)
  end.
Proof.
  induction xs as [|x xs IH]; intros w; cbn [for_of map first_failure].
  - rewrite run_ret, set_trace_nil. reflexivity.
  - rewrite run_bind, run_perform_any.
    destruct (fails w (act x)) eqn:Hx.
    + rewrite set_trace_nil. reflexivity.
    + rewrite IH. cbn [fails set_trace trace].
      destruct (first_failure _ _) as [[done e]|];
        norm_world; rewrite <- app_assoc; reflexivity.
Qed.

Lemma run_close_nodes_any (l : list Node) : ∀ w,
  run (for_of l (λ node,
         servers ← get_listening node;
         for_of servers (λ server, close node server))) w =
  match first_failure (fails w) (concat (map (closes w) l)) with
  | None => (Ok tt, set_trace (trace w ++ concat (map (closes w) l)) w)
  | Some (done, e) => (Throw (Failed e), set_trace (trace w ++ done) w)
  end.
Proof.
  induction l as [|node l IH]; intros w; cbn [for_of map concat].
  - rewrite run_ret, set_trace_nil. reflexivity.
  - rewrite first_failure_app.
    rewrite run_bind. unfold get_listening at 1.
    erewrite run_bind_ok by reflexivity.
    unfold close. rewrite (run_actions (Closed (node_id node))).
    fold (closes w node).
    destruct (first_failure (fails w) (closes w node)) as [[done e]|];
      [reflexivity|].
    rewrite IH. cbn [fails set_trace trace].
    change (closes (set_trace (trace w ++ closes w node) w)) with (closes w).
    destruct (first_failure _ _) as [[done e]|];
      norm_world; rewrite <- app_assoc; reflexivity.
Qed.

Lemma run_destroy_down_any (l : list Node) k : ∀ w,
  k ≤ length l →
  run (destroy_down l k) w =
  match first_failure (fails w) (map destroyed (reverse (take k l))) with
  | None => (Ok tt, set_trace (trace w ++ map destroyed (reverse (take k l))) w)
  | Some (done, e) => (Throw (Failed e), set_trace (trace w ++ done) w)
  end.
Proof.
  induction k as [|i IH]; intros w Hk; cbn [destroy_down].
  - rewrite run_ret, take_0. simpl. rewrite set_trace_nil. reflexivity.
  - destruct (lookup_lt_is_Some_2 l i) as [node Hnode]; [lia|].
    rewrite Hnode. unfold node_destroy.
    rewrite (take_S_r l i node Hnode), reverse_snoc.
    cbn [map first_failure]. fold (destroyed node).
    rewrite run_bind, run_perform_any.
    destruct (fails w (destroyed node)) eqn:Hx.
    + rewrite set_trace_nil. reflexivity.
    + rewrite IH by lia. cbn [fails set_trace trace].
      destruct (first_failure _ _) as [[done e]|];
        norm_world; rewrite <- app_assoc; reflexivity.
Qed.

(** [destroy] in any world: it performs its plan up to the first failing
    action and throws the failure. *)
Lemma destroy_any (this : Testnet) (w : World) :
  run (destroy this) w =
  match first_failure (fails w) (destroy_plan this w) with
  | None => (Ok tt, set_trace (trace w ++ destroy_plan this w) w)
  | Some (done, e) => (Throw (Failed e), set_trace (trace w ++ done) w)
  end.
Proof.
  unfold destroy, destroy_plan. rewrite first_failure_app.
  rewrite run_bind, run_close_nodes_any.
  destruct (first_failure (fails w) (concat _)) as [[done e]|]; [reflexivity|].
  rewrite run_destroy_down_any by lia. rewrite firstn_all.
  cbn [fails set_trace trace].
  destruct (first_failure _ _) as [[done e]|];
    norm_world; rewrite <- app_assoc; reflexivity.
Qed.
Lemma constructed_ids_app l1 l2 :
  constructed_ids (l1 ++ l2) = constructed_ids l1 ++ constructed_ids l2.
Proof. apply omap_app. Qed.

Lemma destroyed_ids_app l1 l2 :
  destroyed_ids (l1 ++ l2) = destroyed_ids l1 ++ destroyed_ids l2.
Proof. apply omap_app. Qed.

Lemma ids_of_startups (l : list Node) :
  constructed_ids (concat (map startup l)) = map node_id l ∧
  destroyed_ids (concat (map startup l)) = [].
Proof.
  induction l as [|x l [IHc IHd]]; [split; reflexivity|]. split.
  - change (constructed_ids (concat (map startup (x :: l))))
      with (node_id x :: constructed_ids (concat (map startup l))).
    rewrite IHc. reflexivity.
  - exact IHd.
Qed.

Lemma ids_of_closes w (l : list Node) :
  constructed_ids (concat (map (closes w) l)) = [] ∧
  destroyed_ids (concat (map (closes w) l)) = [].
Proof.
  induction l as [|x l [IHc IHd]]; [split; reflexivity|].
  cbn [map concat]. rewrite constructed_ids_app, destroyed_ids_app, IHc, IHd.
  unfold closes. generalize (listening w (node_id x)). intros servers.
  induction servers as [|s servers [Hc Hd]]; [split; reflexivity|].
  split; simpl; assumption.
Qed.

Lemma ids_of_destroys (l : list Node) :
  constructed_ids (map destroyed l) = [] ∧
  destroyed_ids (map destroyed l) = map node_id l.
Proof.
  induction l as [|x l [IHc IHd]]; [split; reflexivity|]. split.
  - exact IHc.
  - change (destroyed_ids (map destroyed (x :: l)))
      with (node_id x :: destroyed_ids (map destroyed l)).
    rewrite IHd. reflexivity.
Qed.

Lemma creation_plan_destroys_nothing size opts w :
  destroyed_ids (creation_plan size opts w) = [].
Proof.
  unfold creation_plan. case_decide; [reflexivity|]. apply ids_of_startups.
Qed.

(** X1.  When an action of the creation fails, [createStandardTestnet]
    throws the failure of the first such action.  The actions before it
    have completed and stay: the nodes constructed so far have taken their
    identities, none of them is destroyed, and no teardown is registered
    for them. *)
Theorem createStandardTestnet_stops_at_first_failure
    (size : option Z) (opts : option Opts) (w : World)
    (done : list Event) (e : Event) (rest : list Event) :
  creation_plan size opts w = done ++ e :: rest →
  Forall (λ x, fails w x = false) done →
  fails w e = true →
  ∃ w',
    run (createStandardTestnet size opts) w = (Throw (Failed e), w') ∧
    trace w' = trace w ++ done ∧
    next_node w' = next_node w + length (constructed_ids done) ∧
    destroyed_ids done = [] ∧
    registered w' = registered w.
Proof.
  intros Hplan Hdone He.
  assert (Hsize : default 10%Z size ≠ 0%Z).
  { intros H0. unfold creation_plan in Hplan. rewrite decide_True in Hplan by exact H0.
    destruct done; discriminate. }
  assert (Hff : first_failure (fails w) (creation_plan size opts w) = Some (done, e)).
  { apply first_failure_Some. split; [exists rest; exact Hplan|]. split; assumption. }
  rewrite createStandardTestnet_any by exact Hsize. rewrite Hff.
  eexists. split; [reflexivity|]. cbn [trace next_node registered].
  split; [reflexivity|]. split; [reflexivity|]. split; [|reflexivity].
  pose proof (creation_plan_destroys_nothing size opts w) as Hd.
  rewrite Hplan, destroyed_ids_app in Hd. apply app_eq_nil in Hd. apply Hd.
Qed.

(** X2.  For a size other than 0 in a world where nothing fails, the
    testnet has [size] nodes when [size] is at least 1, and one node, the
    seed, when [size] is negative; without a size it has 10.  The nodes
    have the identities the world hands out, in creation order. *)
Theorem createStandardTestnet_node_count
    (size : option Z) (opts : option Opts) (w : World) :
  calm w →
  default 10%Z size ≠ 0%Z →
  ∃ t w',
    run (createStandardTestnet size opts) w = (Ok t, w') ∧
    length (nodes t) = Z.to_nat (Z.max 1 (default 10%Z size)) ∧
    map node_id (nodes t) = seq (next_node w) (length (nodes t)) ∧
    next_node w' = next_node w + length (nodes t).
Proof.
  intros Hcalm Hsize.
  eexists _, _. split; [apply NetFacts.createStandardTestnet_run; assumption|].
  cbn [nodes next_node length].
  rewrite length_map, length_seq.
  split; [lia|]. split; [|lia].
  rewrite NetFacts.node_ids_run. reflexivity.
Qed.

(** X3.  For a size other than 0 in a world where nothing fails: with
    [includeRed25519] the first node of the testnet is a red25519 node
    ([DHT]), otherwise a standard one, and every other node is a standard
    one.  All nodes are constructed non-ephemeral and non-firewalled, with
    the host 127.0.0.1 if that is the requested host and 0.0.0.0 otherwise;
    the seed is given the requested port (0 when there is none) and the
    other nodes none. *)
Theorem createStandardTestnet_node_options
    (size : option Z) (opts : option Opts) (w : World) :
  calm w →
  default 10%Z size ≠ 0%Z →
  let o := default empty_opts opts in
  ∃ t w' seed rest,
    run (createStandardTestnet size opts) w = (Ok t, w') ∧
    nodes t = seed :: rest ∧
    node_class seed = (if flag opts_includeRed25519 o then DHT else StandardHyperDHT) ∧
    o_port (node_options seed) = Some (or_number (prop opts_port o) 0) ∧
    Forall (λ node, node_class node = StandardHyperDHT ∧
                    o_port (node_options node) = None) rest ∧
    Forall (λ node, o_ephemeral (node_options node) = false ∧
                    o_firewalled (node_options node) = false ∧
                    o_host (node_options node) =
                      (if decide (requested_host o = "127.0.0.1")
                       then "127.0.0.1" else "0.0.0.0")) (nodes t).
Proof.
  intros Hcalm Hsize o.
  eexists _, _, _, _. split; [apply NetFacts.createStandardTestnet_run; assumption|].
  split; [reflexivity|]. fold o.
  split; [reflexivity|]. split; [reflexivity|].
  split.
  - apply Forall_forall. intros node Hin.
    apply list_elem_of_fmap in Hin as [id [-> _]]. split; reflexivity.
  - cbn [nodes]. apply Forall_cons. split; [repeat split|].
    apply Forall_forall. intros node Hin.
    apply list_elem_of_fmap in Hin as [id [-> _]]. repeat split.
Qed.

(** X4.  Every node of the testnet, the seed included, is constructed with
    the array that the testnet holds as its bootstrap list.  So when the
    caller supplied no contacts, the array the seed was constructed with
    ends up holding the seed's own address. *)
Theorem seed_shares_bootstrap_array
    (size : option Z) (opts : option Opts) (w : World) :
  calm w →
  default 10%Z size ≠ 0%Z →
  let o := default empty_opts opts in
  ∃ t w' seed rest,
    run (createStandardTestnet size opts) w = (Ok t, w') ∧
    nodes t = seed :: rest ∧
    Forall (λ node, o_bootstrap (node_options node) = bootstrap t) (nodes t) ∧
    (default [] (prop opts_bootstrap o) = [] →
       arrays w' !! o_bootstrap (node_options seed) =
         Some [{| host := requested_host o;
                  port := bound_port w (node_id seed) |}]).
Proof.
  intros Hcalm Hsize o.
  eexists _, _, _, _. split; [apply NetFacts.createStandardTestnet_run; assumption|].
  split; [reflexivity|]. fold o. split.
  - cbn [nodes bootstrap]. apply Forall_cons. split; [reflexivity|].
    apply Forall_forall. intros node Hin.
    apply list_elem_of_fmap in Hin as [id [-> _]]. reflexivity.
  - intros Hgiven. cbn. rewrite lookup_insert_eq, Hgiven. reflexivity.
Qed.

(** X5.  For a size other than 0 in a world where nothing fails, the
    teardown is handed one callback, for the testnet that is returned, when
    the options are a function or carry a teardown function; otherwise
    nothing is registered. *)
Theorem createStandardTestnet_registers_teardown
    (size : option Z) (opts : option Opts) (w : World) :
  calm w →
  default 10%Z size ≠ 0%Z →
  ∃ t w',
    run (createStandardTestnet size opts) w = (Ok t, w') ∧
    registered w' =
      registered w ++
      match default empty_opts opts with
      | OptsFunction => [t]
      | OptsObj o => if opts_teardown o then [t] else []
      end.
Proof.
  intros Hcalm Hsize.
  eexists _, _. split; [apply NetFacts.createStandardTestnet_run; assumption|].
  cbn [registered]. unfold registers.
  destruct (default empty_opts opts) as [|o]; reflexivity.
Qed.

(** X6.  Whatever the size, the options and the world, and whether the
    call returns or throws, [createStandardTestnet] writes to new arrays
    only: every array that existed before the call holds what it held. *)
Theorem createStandardTestnet_keeps_arrays
    (size : option Z) (opts : option Opts) (w : World) (a : nat) :
  a < next_array w →
  arrays (run (createStandardTestnet size opts) w).2 !! a = arrays w !! a.
Proof.
  intros Ha.
  destruct (decide (default 10%Z size = 0%Z)) as [H0|Hsize].
  - unfold createStandardTestnet.
    erewrite run_bind_ok by apply NetFacts.run_new_array.
    rewrite decide_True by exact H0. cbn.
    rewrite !lookup_insert_ne by lia. reflexivity.
  - rewrite createStandardTestnet_any by exact Hsize.
    destruct (first_failure _ _) as [[done e]|]; cbn;
      rewrite lookup_insert_ne by lia; reflexivity.
Qed.

(** X7.  When an action of [destroy] fails, [destroy] throws the failure
    of the first such action: the actions before it have completed, the
    servers and nodes after it are left as they are.  Nothing but the trace
    changes. *)
Theorem destroy_stops_at_first_failure
    (this : Testnet) (w : World)
    (done : list Event) (e : Event) (rest : list Event) :
  destroy_plan this w = done ++ e :: rest →
  Forall (λ x, fails w x = false) done →
  fails w e = true →
  ∃ w',
    run (destroy this) w = (Throw (Failed e), w') ∧
    trace w' = trace w ++ done ∧
    arrays w' = arrays w ∧
    registered w' = registered w.
Proof.
  intros Hplan Hdone He.
  assert (Hff : first_failure (fails w) (destroy_plan this w) = Some (done, e)).
  { apply first_failure_Some. split; [exists rest; exact Hplan|]. split; assumption. }
  rewrite destroy_any, Hff.
  eexists. repeat split.
Qed.

(** X8.  When the close of a server fails, [destroy] throws and no node is
    destroyed. *)
Theorem destroy_close_failure_destroys_no_node
    (this : Testnet) (w : World) (node : Node) (server : nat) :
  node ∈ nodes this →
  server ∈ listening w (node_id node) →
  fails w (Closed (node_id node) server) = true →
  ∃ err w',
    run (destroy this) w = (Throw err, w') ∧
    destroyed_ids (trace w') = destroyed_ids (trace w).
Proof.
  intros Hnode Hserver Hfail.
  rewrite destroy_any. unfold destroy_plan. rewrite first_failure_app.
  destruct (first_failure (fails w) (concat (map (closes w) (nodes this))))
    as [[done e]|] eqn:Hff.
  - eexists _, _. split; [reflexivity|]. cbn [trace set_trace].
    apply first_failure_Some in Hff as [[rest Hplan] _].
    pose proof (proj2 (ids_of_closes w (nodes this))) as Hd.
    rewrite Hplan, destroyed_ids_app in Hd. apply app_eq_nil in Hd as [Hd _].
    rewrite destroyed_ids_app, Hd, app_nil_r. reflexivity.
  - exfalso.
    assert (Hin : Closed (node_id node) server ∈ concat (map (closes w) (nodes this))).
    { apply list_elem_of_In, in_concat. exists (closes w node). split.
      - apply in_map, list_elem_of_In, Hnode.
      - unfold closes. apply in_map, list_elem_of_In, Hserver. }
    clear -Hff Hin Hfail.
    induction (concat (map (closes w) (nodes this))) as [|x l IH]; [inversion Hin|].
    simpl in Hff. destruct (fails w x) eqn:Hx; [discriminate|].
    destruct (first_failure (fails w) l) as [[d f]|]; [discriminate|].
    apply elem_of_cons in Hin as [<-|Hin]; [congruence|]. apply IH; [reflexivity|exact Hin].
Qed.

(** X9.  In a world where nothing fails, the creation of a testnet (size
    other than 0) followed by its teardown destroys every node that was
    constructed, once each, in the reverse of the order of construction. *)
Theorem create_then_destroy_leaves_no_node
    (size : option Z) (opts : option Opts) (w : World) :
  calm w →
  default 10%Z size ≠ 0%Z →
  ∃ t w' evs,
    run (create_then_destroy size opts) w = (Ok t, w') ∧
    trace w' = trace w ++ evs ∧
    constructed_ids evs = map node_id (nodes t) ∧
    destroyed_ids evs = reverse (constructed_ids evs) ∧
    NoDup (constructed_ids evs).
Proof.
  intros Hcalm Hsize. unfold create_then_destroy.
  erewrite run_bind_ok by (apply NetFacts.createStandardTestnet_run; assumption).
  rewrite run_bind, destroy_any.
  rewrite first_failure_calm by exact Hcalm.
  rewrite run_ret. cbn [trace set_trace].
  eexists _, _, _. split; [reflexivity|].
  split; [rewrite <- app_assoc; reflexivity|].
  unfold destroy_plan.
  rewrite !constructed_ids_app, !destroyed_ids_app.
  rewrite (proj1 (ids_of_startups _)), (proj2 (ids_of_startups _)).
  rewrite (proj1 (ids_of_closes _ _)), (proj2 (ids_of_closes _ _)).
  rewrite (proj1 (ids_of_destroys _)), (proj2 (ids_of_destroys _)).
  rewrite !app_nil_r. cbn [app].
  split; [reflexivity|]. split.
  - change (map node_id ?l) with (node_id <$> l). rewrite fmap_reverse. reflexivity.
  - cbn [nodes]. rewrite NetFacts.node_ids_run. apply NoDup_seq.
Qed.
(** *** The properties on the sample inputs *)

Lemma createStandardTestnet_stops_at_first_failure_sample :
  let n0 := first_node Sample.opts 0 0 in
  let n1 := loop_node 0 "127.0.0.1" 1 in
  ∃ w',
    run (createStandardTestnet (Some 3%Z) (Some Sample.opts))
        Sample2.world_bootstrap_fails
      = (Throw (Failed (Bootstrapped 1)), w') ∧
    trace w' = [Constructed n0; Bootstrapped 0; Constructed n1] ∧
    next_node w' = 2 ∧
    destroyed_ids [Constructed n0; Bootstrapped 0; Constructed n1] = [] ∧
    registered w' = [].
Proof.
  intros n0 n1.
  apply (createStandardTestnet_stops_at_first_failure
           (Some 3%Z) (Some Sample.opts) Sample2.world_bootstrap_fails
           [Constructed n0; Bootstrapped 0; Constructed n1] (Bootstrapped 1)
           [Constructed (loop_node 0 "127.0.0.1" 2); Bootstrapped 2]).
  - reflexivity.
  - repeat constructor.
  - reflexivity.
Defined.

Lemma createStandardTestnet_node_count_sample :
  ∃ t w',
    run (createStandardTestnet (Some (-2)%Z) None) Sample.world = (Ok t, w') ∧
    length (nodes t) = 1 ∧
    map node_id (nodes t) = seq 0 (length (nodes t)) ∧
    next_node w' = 0 + length (nodes t).
Proof.
  apply (createStandardTestnet_node_count (Some (-2)%Z) None Sample.world).
  - exact NetFacts.sample_world_calm.
  - discriminate.
Defined.

Lemma createStandardTestnet_node_options_sample :
  let o := Sample2.opts_red25519 in
  ∃ t w' seed rest,
    run (createStandardTestnet (Some 3%Z) (Some o)) Sample.world = (Ok t, w') ∧
    nodes t = seed :: rest ∧
    node_class seed = DHT ∧
    o_port (node_options seed) = Some 0%Z ∧
    Forall (λ node, node_class node = StandardHyperDHT ∧
                    o_port (node_options node) = None) rest ∧
    Forall (λ node, o_ephemeral (node_options node) = false ∧
                    o_firewalled (node_options node) = false ∧
                    o_host (node_options node) = "127.0.0.1") (nodes t).
Proof.
  apply (createStandardTestnet_node_options (Some 3%Z) (Some Sample2.opts_red25519)
           Sample.world).
  - exact NetFacts.sample_world_calm.
  - discriminate.
Defined.

Lemma seed_shares_bootstrap_array_sample :
  ∃ t w' seed rest,
    run (createStandardTestnet (Some 3%Z) (Some Sample.opts)) Sample.world
      = (Ok t, w') ∧
    nodes t = seed :: rest ∧
    Forall (λ node, o_bootstrap (node_options node) = bootstrap t) (nodes t) ∧
    (@nil Address = [] →
       arrays w' !! o_bootstrap (node_options seed) =
         Some [{| host := "127.0.0.1";
                  port := bound_port Sample.world (node_id seed) |}]).
Proof.
  apply (seed_shares_bootstrap_array (Some 3%Z) (Some Sample.opts) Sample.world).
  - exact NetFacts.sample_world_calm.
  - discriminate.
Defined.

Lemma createStandardTestnet_registers_teardown_sample :
  ∃ t w',
    run (createStandardTestnet (Some 3%Z) (Some Sample.opts)) Sample.world
      = (Ok t, w') ∧
    registered w' = [] ++ [t].
Proof.
  apply (createStandardTestnet_registers_teardown (Some 3%Z) (Some Sample.opts)
           Sample.world).
  - exact NetFacts.sample_world_calm.
  - discriminate.
Defined.

Lemma createStandardTestnet_keeps_arrays_sample :
  arrays (run (createStandardTestnet (Some 3%Z) None) Sample2.world_with_array).2 !! 0
  = Some [Sample.peer 49000].
Proof.
  apply (createStandardTestnet_keeps_arrays (Some 3%Z) None
           Sample2.world_with_array 0).
  simpl. lia.
Defined.

Lemma destroy_stops_at_first_failure_sample :
  ∃ w',
    run (destroy Sample.testnet) Sample2.world_close_fails
      = (Throw (Failed (Closed 1 3)), w') ∧
    trace w' = [Closed 0 0; Closed 0 1; Closed 1 2] ∧
    arrays w' = ∅ ∧
    registered w' = [].
Proof.
  apply (destroy_stops_at_first_failure Sample.testnet Sample2.world_close_fails
           [Closed 0 0; Closed 0 1; Closed 1 2] (Closed 1 3)
           [Closed 2 4; Closed 2 5; Destroyed 2; Destroyed 1; Destroyed 0]).
  - reflexivity.
  - repeat constructor.
  - reflexivity.
Defined.

Lemma destroy_close_failure_destroys_no_node_sample :
  ∃ err w',
    run (destroy Sample.testnet) Sample2.world_close_fails = (Throw err, w') ∧
    destroyed_ids (trace w') = [].
Proof.
  apply (destroy_close_failure_destroys_no_node Sample.testnet
           Sample2.world_close_fails (loop_node 0 "127.0.0.1" 1) 3).
  - apply list_elem_of_further, list_elem_of_here.
  - apply list_elem_of_further, list_elem_of_here.
  - reflexivity.
Defined.

Lemma create_then_destroy_leaves_no_node_sample :
  ∃ t w' evs,
    run (create_then_destroy (Some 3%Z) (Some Sample.opts)) Sample.world
      = (Ok t, w') ∧
    trace w' = [] ++ evs ∧
    constructed_ids evs = map node_id (nodes t) ∧
    destroyed_ids evs = reverse (constructed_ids evs) ∧
    NoDup (constructed_ids evs).
Proof.
  apply (create_then_destroy_leaves_no_node (Some 3%Z) (Some Sample.opts)
           Sample.world).
  - exact NetFacts.sample_world_calm.
  - discriminate.
Defined.
End PlanFacts.
